(** * Federated averaging over websocket workers: the round loop of
      [train] and the epoch driver of the MNIST tutorial notebook.

    The notebook defines [train] (one epoch: rounds of local training on
    every worker followed by a federated average) and the epoch loop that
    calls it.  Its helpers [rwc.get_next_batches], [rwc.train_on_batches],
    [rwc.test] and [utils.federated_avg] live in modules that are not part
    of the sources at hand; they are modelled from the specification, or
    taken as section variables where the specification treats them as
    opaque collaborators. *)

From Stdlib Require Import ZArith QArith Lia.
From stdpp Require Import gmap strings list fin_maps.

Close Scope Q_scope.
Local Open Scope Z_scope.

(** ** Data model *)

Abbreviation WorkerId := string.

(** A shape-tagged array of numbers.  Values are exact rationals: the
    development covers the rational-representable case of the arithmetic. *)
Record Tensor := mkTensor { shape : list nat; data : list Q }.

#[global] Instance Q_eq_dec : EqDecision Q.
Proof. solve_decision. Defined.

#[global] Instance Tensor_eq_dec : EqDecision Tensor.
Proof. solve_decision. Defined.

Definition numel (s : list nat) : nat := foldr Nat.mul 1%nat s.

Definition tensor_wf (t : Tensor) : Prop := length (data t) = numel (shape t).

(** ParameterSet: parameter name -> tensor. *)
Abbreviation ParameterSet := (gmap string Tensor).

(** The names of a ParameterSet together with the shape of each. *)
Definition signature (p : gmap string Tensor) : gmap string (list nat) :=
  shape <$> p.

Definition params_wf (p : gmap string Tensor) : Prop :=
  ∀ name t, p !! name = Some t → tensor_wf t.

(** Python-style results: a value, or a raised error. *)
Inductive Result (E A : Type) : Type :=
  | Ok (a : A)
  | Err (e : E).
Arguments Ok {E A} a.
Arguments Err {E A} e.

Inductive AggError : Type :=
  | EmptyAggregationInput
  | ShapeMismatch.

(** ** Aggregator *)

Definition Qsum (vs : list Q) : Q := foldr Qplus 0%Q vs.

(** Unweighted arithmetic mean of a list of numbers. *)
Definition mean (vs : list Q) : Q :=
  (Qsum vs / inject_Z (Z.of_nat (length vs)))%Q.

Definition tensor_add (a b : Tensor) : Tensor :=
  {| shape := shape a; data := zip_with Qplus (data a) (data b) |}.

Definition tensor_div (n : nat) (a : Tensor) : Tensor :=
  {| shape := shape a;
     data := (λ x, x / inject_Z (Z.of_nat n))%Q <$> data a |}.

Definition param_add (p q : gmap string Tensor) : gmap string Tensor :=
  intersection_with (λ a b, Some (tensor_add a b)) p q.

Definition same_signature (p q : gmap string Tensor) : Prop :=
  signature p = signature q.

#[global] Instance same_signature_dec p q : Decision (same_signature p q).
Proof. unfold same_signature. apply _. Defined.

(** Modelled from the spec: [utils.federated_avg] (module
    [syft.frameworks.torch.federated.utils]) is not among the sources.
    Section 4.3: for every parameter name, the elementwise arithmetic mean
    across all contributing workers' tensors; the identical name/shape set
    is checked at call time; fails if the mapping is empty or two
    ParameterSets disagree on name set or shape. *)
Definition federatedAverage (models : list (WorkerId * gmap string Tensor))
  : Result AggError (gmap string Tensor) :=
  match models with
  | [] => Err EmptyAggregationInput
  | (_, p0) :: rest =>
      if decide (Forall (λ wp, same_signature p0 wp.2) rest)
      then Ok (tensor_div (length models) <$> foldl param_add p0 rest.*2)
      else Err ShapeMismatch
  end.

(** Two ParameterSets of the mapping disagree on name set or shape. *)
Definition disagree (models : list (WorkerId * gmap string Tensor)) : Prop :=
  ∃ w1 p1 w2 p2,
    (w1, p1) ∈ models ∧ (w2, p2) ∈ models ∧ signature p1 ≠ signature p2.

(** ** Collaborators and the data loader *)

Inductive Device : Type := cpu | cuda.

(** Modelled from the spec: [rwc.train_on_batches] and [rwc.test] (module
    [run_websocket_client]) are not among the sources.  Sections 3 and 6:
    local training receives the global ParameterSet by value, trains a copy
    on the given batches and returns the resulting ParameterSet with the
    loss values; evaluation reads a ParameterSet and yields metrics.
    Neither mutates the ParameterSet it is given, so both are functions.
    A failure of the transport (sections 4.4 and 7) is not modelled: the
    development is about runs in which every call to a worker returns. *)
Class Collaborators (Batch TestLoader Metrics : Type) : Type := {
  train_on_batches :
    WorkerId → list Batch → gmap string Tensor → Device → Q →
    gmap string Tensor * list Q;
  test : gmap string Tensor → Device → TestLoader → Metrics
}.

(** A Python [dict] keyed by worker: insertion-ordered, [d[k] = v]
    overwrites in place when [k] is present and appends otherwise. *)
Fixpoint dict_set {V : Type} (k : WorkerId) (v : V) (d : list (WorkerId * V))
  : list (WorkerId * V) :=
  match d with
  | [] => [(k, v)]
  | (k', v') :: d' =>
      if decide (k = k') then (k, v) :: d' else (k', v') :: dict_set k v d'
  end.

Section Training.
Context {Batch TestLoader Metrics : Type}.
Context {C : Collaborators Batch TestLoader Metrics}.

(** Modelled from the spec: [sy.FederatedDataLoader] with
    [iter_per_worker=True] is not among the sources.  Sections 4.1 and 6:
    one restartable cursor per worker over that worker's partition. *)
Record FederatedDataLoader : Type := mkLoader {
  partition : list (WorkerId * list Batch);
  cursors : list (WorkerId * list Batch)
}.

(** Modelled from the spec: [iter(federated_train_loader)] restarts the
    loader (section 4.1: a fresh cursor per worker each epoch, over the
    same partition). *)
Definition iter (l : FederatedDataLoader) : FederatedDataLoader :=
  {| partition := partition l; cursors := partition l |}.

(** Modelled from the spec: BatchCursor.nextBatches (section 4.1): up to
    [count] batches in order, fewer when the partition runs out, empty
    once it is exhausted; the second component is the advanced cursor. *)
Definition nextBatches (count : Z) (c : list Batch)
  : list Batch * list Batch :=
  (take (Z.to_nat count) c, drop (Z.to_nat count) c).

(** Modelled from the spec: [rwc.get_next_batches] is not among the
    sources.  Section 4.2: one RoundAssignment, made by calling
    [nextBatches nr_batches] on every cursor. *)
Definition get_next_batches (l : FederatedDataLoader) (nr_batches : Z)
  : list (WorkerId * list Batch) * FederatedDataLoader :=
  (prod_map id (λ c, (nextBatches nr_batches c).1) <$> cursors l,
   {| partition := partition l;
      cursors := prod_map id (λ c, (nextBatches nr_batches c).2)
                   <$> cursors l |}).

(** What the run does that is visible from outside, in order. *)
Inductive Event : Type :=
  | EvEpochStart (epoch epochs : Z)
  | EvRoundStart (lo hi : Z)
  | EvDispatch (worker : WorkerId) (curr_batches : list Batch)
               (model : gmap string Tensor)
  | EvStop
  | EvAggregate (models : list (WorkerId * gmap string Tensor))
  | EvFetch (nr_batches : Z)
  | EvTest (model : gmap string Tensor) (metrics : Metrics).

(** The local variables of [train], the loader it advances, and the
    events so far. *)
Record TrainState : Type := mkTrainState {
  model : gmap string Tensor;
  models : list (WorkerId * gmap string Tensor);
  loss_values : list (WorkerId * list Q);
  batches : list (WorkerId * list Batch);
  counter : Z;
  data_for_all_workers : bool;
  loader : FederatedDataLoader;
  trace : list Event
}.

(** Body of [for worker in batches]. *)
Definition train_worker (device : Device) (lr : Q)
    (st : TrainState) (wb : WorkerId * list Batch) : TrainState :=
  let worker := wb.1 in
  let curr_batches := wb.2 in
  match curr_batches with
  | _ :: _ =>
      let r := train_on_batches worker curr_batches (model st) device lr in
      {| model := model st;
         models := dict_set worker r.1 (models st);
         loss_values := dict_set worker r.2 (loss_values st);
         batches := batches st;
         counter := counter st;
         data_for_all_workers := data_for_all_workers st;
         loader := loader st;
         trace := trace st ++ [EvDispatch worker curr_batches (model st)] |}
  | [] =>
      {| model := model st;
         models := models st;
         loss_values := loss_values st;
         batches := batches st;
         counter := counter st;
         data_for_all_workers := false;
         loader := loader st;
         trace := trace st |}
  end.

(** Top of the [while True] body up to [counter += nr_batches]. *)
Definition round_train (device : Device) (lr : Q) (nr_batches : Z)
    (st : TrainState) : TrainState :=
  let st0 :=
    {| model := model st;
       models := models st;
       loss_values := loss_values st;
       batches := batches st;
       counter := counter st;
       data_for_all_workers := true;
       loader := loader st;
       trace := trace st
                ++ [EvRoundStart (counter st) (counter st + nr_batches)] |} in
  let st1 := foldl (train_worker device lr) st0 (batches st) in
  {| model := model st1;
     models := models st1;
     loss_values := loss_values st1;
     batches := batches st1;
     counter := counter st1 + nr_batches;
     data_for_all_workers := data_for_all_workers st1;
     loader := loader st1;
     trace := trace st1 |}.

Definition log (ev : Event) (st : TrainState) : TrainState :=
  {| model := model st;
     models := models st;
     loss_values := loss_values st;
     batches := batches st;
     counter := counter st;
     data_for_all_workers := data_for_all_workers st;
     loader := loader st;
     trace := trace st ++ [ev] |}.

(** How one pass through the [while True] body ends: the loop goes on,
    [break] is taken, or [utils.federated_avg] raises.  A raise carries
    the state at the point of the raise. *)
Inductive Outcome : Type :=
  | Continue (st : TrainState)
  | Break (st : TrainState)
  | Raise (e : AggError) (st : TrainState).

Definition round (device : Device) (lr : Q) (nr_batches : Z)
    (st : TrainState) : Outcome :=
  let st1 := round_train device lr nr_batches st in
  if negb (data_for_all_workers st1) then Break (log EvStop st1)
  else
    let st2 := log (EvAggregate (models st1)) st1 in
    match federatedAverage (models st1) with
    | Err e => Raise e st2
    | Ok m =>
        let nb := get_next_batches (loader st2) nr_batches in
        Continue
          {| model := m;
             models := models st2;
             loss_values := loss_values st2;
             batches := nb.1;
             counter := counter st2;
             data_for_all_workers := data_for_all_workers st2;
             loader := nb.2;
             trace := trace st2 ++ [EvFetch nr_batches] |}
    end.

(** How a call of [train] ends. *)
Inductive TrainResult : Type :=
  | Returned (st : TrainState)
  | Raised (e : AggError) (st : TrainState)
  | OutOfFuel.

Fixpoint train_loop (fuel : nat) (device : Device) (lr : Q)
    (nr_batches : Z) (st : TrainState) : TrainResult :=
  match fuel with
  | O => OutOfFuel
  | S fuel' =>
      match round device lr nr_batches st with
      | Continue st' => train_loop fuel' device lr nr_batches st'
      | Break st' => Returned st'
      | Raise e st' => Raised e st'
      end
  end.

Definition total_batches (d : list (WorkerId * list Batch)) : nat :=
  sum_list (length ∘ snd <$> d).

(** The state on entry to the [while True] loop. *)
Definition train_init (model : gmap string Tensor)
    (federated_train_loader : FederatedDataLoader) (nr_batches : Z)
  : TrainState :=
  let nb := get_next_batches (iter federated_train_loader) nr_batches in
  {| model := model;
     models := [];
     loss_values := [];
     batches := nb.1;
     counter := 0;
     data_for_all_workers := true;
     loader := nb.2;
     trace := [EvFetch nr_batches] |}.

(** [train].  [model.train()] only switches the module to training mode
    and leaves the parameters alone.  The loop is run with enough fuel for
    every batch of the partitions ([train_terminates] below). *)
Definition train (model : gmap string Tensor) (device : Device)
    (federated_train_loader : FederatedDataLoader) (lr : Q)
    (federate_after_n_batches : Z) : TrainResult :=
  let nr_batches := federate_after_n_batches in
  train_loop (S (total_batches (partition federated_train_loader)))
    device lr nr_batches
    (train_init model federated_train_loader nr_batches).

(** The state after [k] passes of the loop that all went on. *)
Fixpoint rounds (k : nat) (device : Device) (lr : Q) (nr_batches : Z)
    (st : TrainState) : option TrainState :=
  match k with
  | O => Some st
  | S k' =>
      match round device lr nr_batches st with
      | Continue st' => rounds k' device lr nr_batches st'
      | _ => None
      end
  end.

(** *** Observations on a round *)

Definition has_data (wb : WorkerId * list Batch) : bool :=
  match wb.2 with [] => false | _ :: _ => true end.

(** The calls of [rwc.train_on_batches] a round makes: one per worker
    with a non-empty assignment, in the iteration order of [batches]. *)
Definition dispatches (m : gmap string Tensor)
    (bs : list (WorkerId * list Batch)) : list Event :=
  (λ wb, EvDispatch wb.1 wb.2 m) <$> List.filter has_data bs.

(** The per-worker ParameterSets of a round in which every worker trains. *)
Definition round_results (device : Device) (lr : Q)
    (m : gmap string Tensor) (bs : list (WorkerId * list Batch))
  : list (WorkerId * gmap string Tensor) :=
  (λ wb, (wb.1, (train_on_batches wb.1 wb.2 m device lr).1)) <$> bs.

Definition outcome_state (o : Outcome) : TrainState :=
  match o with Continue st | Break st | Raise _ st => st end.

(** The events a pass of the loop adds to the trace. *)
Definition round_events (device : Device) (lr : Q) (nr_batches : Z)
    (st : TrainState) : list Event :=
  drop (length (trace st))
    (trace (outcome_state (round device lr nr_batches st))).

Definition is_dispatch (ev : Event) : bool :=
  match ev with EvDispatch _ _ _ => true | _ => false end.

Definition is_aggregate (ev : Event) : bool :=
  match ev with EvAggregate _ => true | _ => false end.

Definition is_fetch (ev : Event) : bool :=
  match ev with EvFetch _ => true | _ => false end.

Definition is_epoch_start (ev : Event) : bool :=
  match ev with EvEpochStart _ _ => true | _ => false end.

Definition is_test (ev : Event) : bool :=
  match ev with EvTest _ _ => true | _ => false end.

(** Some worker's assignment for the round is empty. *)
Definition exhausted (bs : list (WorkerId * list Batch)) : Prop :=
  ∃ w, (w, []) ∈ bs.

(** Every assignment of the round is non-empty. *)
Definition all_have_data (bs : list (WorkerId * list Batch)) : Prop :=
  forallb has_data bs = true.

(** The worker ids of the loader are pairwise distinct, as the keys of
    a [dict] are. *)
Definition distinct_workers (l : FederatedDataLoader) : Prop :=
  NoDup (partition l).*1.

(** What holds of the local variables whenever the loop body starts:
    [batches] has the loader's workers as keys, and [models] is empty or
    has those same keys in that order. *)
Definition dict_inv (st : TrainState) : Prop :=
  NoDup (batches st).*1 ∧
  (batches st).*1 = (cursors (loader st)).*1 ∧
  (models st = [] ∨ (models st).*1 = (batches st).*1).

(** Batches assigned or still to be fetched. *)
Definition remaining (st : TrainState) : nat :=
  (total_batches (batches st) + total_batches (cursors (loader st)))%nat.

(** Local training keeps the names and shapes of the model it is given
    (the ParameterSet invariant of the data model). *)
Definition signature_preserving : Prop :=
  ∀ w bs m device lr,
    signature (train_on_batches w bs m device lr).1 = signature m.

(** The reading of the data-exhaustion rule under which an exhausted
    round dispatches no local training at all. *)
Definition exhausted_round_dispatches_nothing : Prop :=
  ∀ device lr nr st,
    exhausted (batches st) →
    Forall (λ ev, is_dispatch ev = false) (round_events device lr nr st).

Definition is_round_start (ev : Event) : bool :=
  match ev with EvRoundStart _ _ => true | _ => false end.

(** The assignment of round [k + 1] of an epoch and the loader once it is
    fetched, if the [k] rounds before it all went on. *)
Fixpoint schedule (nr_batches : Z) (k : nat) (l : FederatedDataLoader)
  : list (WorkerId * list Batch) * FederatedDataLoader :=
  match k with
  | O => get_next_batches (iter l) nr_batches
  | S k' => get_next_batches (schedule nr_batches k' l).2 nr_batches
  end.

(** Events of the round loop, as opposed to those of the epoch loop. *)
Definition round_event (ev : Event) : Prop :=
  is_epoch_start ev = false ∧ is_test ev = false.

(** What the termination of the loop rests on: [batches] has one entry
    per cursor, and [models] has entries only if there are workers. *)
Definition term_inv (st : TrainState) : Prop :=
  length (batches st) = length (cursors (loader st)) ∧
  (batches st = [] → models st = []).

(** ** The epoch loop *)

Record Args : Type := mkArgs {
  epochs : Z;
  lr : Q;
  federate_after_n_batches : Z
}.

Record DriverState : Type := mkDriverState {
  d_model : gmap string Tensor;
  d_loader : FederatedDataLoader;
  d_trace : list Event
}.

Inductive RunResult : Type :=
  | Finished (st : DriverState)
  | Aborted (e : AggError) (st : DriverState)
  | Stuck.

(** Body of [for epoch in range(1, args.epochs + 1)], over the values of
    the range. *)
Fixpoint epoch_loop (args : Args) (device : Device)
    (test_loader : TestLoader) (range : list Z) (st : DriverState)
  : RunResult :=
  match range with
  | [] => Finished st
  | epoch :: range' =>
      match train (d_model st) device (d_loader st) (lr args)
              (federate_after_n_batches args) with
      | Returned ts =>
          epoch_loop args device test_loader range'
            {| d_model := model ts;
               d_loader := loader ts;
               d_trace := d_trace st
                          ++ [EvEpochStart epoch (epochs args)]
                          ++ trace ts
                          ++ [EvTest (model ts)
                                (test (model ts) device test_loader)] |}
      | Raised e ts =>
          Aborted e
            {| d_model := d_model st;
               d_loader := loader ts;
               d_trace := d_trace st
                          ++ [EvEpochStart epoch (epochs args)]
                          ++ trace ts |}
      | OutOfFuel => Stuck
      end
  end.

(** The per-epoch results of a run: each epoch's [train] starts from
    the model and the loader the previous epoch left. *)
Fixpoint epoch_chain (args : Args) (device : Device)
    (m : gmap string Tensor) (l : FederatedDataLoader)
    (tss : list TrainState) : Prop :=
  match tss with
  | [] => True
  | ts :: tss' =>
      train m device l (lr args) (federate_after_n_batches args)
        = Returned ts ∧
      epoch_chain args device (model ts) (loader ts) tss'
  end.

(** The trace of epochs [epoch], [epoch + 1], ... with the given
    per-epoch results: the epoch banner, the events of [train], then one
    evaluation of the model [train] returned. *)
Fixpoint epoch_traces (args : Args) (device : Device)
    (test_loader : TestLoader) (epoch : Z) (tss : list TrainState)
  : list Event :=
  match tss with
  | [] => []
  | ts :: tss' =>
      EvEpochStart epoch (epochs args)
        :: trace ts
        ++ EvTest (model ts) (test (model ts) device test_loader)
        :: epoch_traces args device test_loader (epoch + 1) tss'
  end.

Definition run (args : Args) (device : Device)
    (model : gmap string Tensor)
    (federated_train_loader : FederatedDataLoader)
    (test_loader : TestLoader) : RunResult :=
  epoch_loop args device test_loader (seqZ 1 (epochs args))
    {| d_model := model;
       d_loader := federated_train_loader;
       d_trace := [] |}.

End Training.

(** ** Concrete collaborators and runs *)

(** Batches are numbered; a local step lowers every value by the learning
    rate, once per batch, and reports the batch number as its loss. *)
Definition sgd_steps (lr : Q) (n : nat) (t : Tensor) : Tensor :=
  {| shape := shape t;
     data := (λ x, x - lr * inject_Z (Z.of_nat n))%Q <$> data t |}.

Definition demo_collaborators : Collaborators nat unit nat :=
  {| train_on_batches := λ w bs m device lr,
       (sgd_steps lr (length bs) <$> m, (λ b, inject_Z (Z.of_nat b)) <$> bs);
     test := λ m device tl, size m |}.

(** A faulty worker side: the shape of what comes back depends on how many
    batches the worker trained on. *)
Definition ragged_collaborators : Collaborators nat unit nat :=
  {| train_on_batches := λ w bs m device lr,
       ((λ _, mkTensor [length bs] (replicate (length bs) 0%Q)) <$> m, []);
     test := λ m device tl, size m |}.

Definition demo_model : gmap string Tensor :=
  {[ "bias" := mkTensor [2%nat] [1 # 2; 3 # 1]%Q ]}.

Definition demo_lr : Q := (1 # 100)%Q.

(** What two workers might send back for [demo_model]. *)
Definition alice_params : gmap string Tensor :=
  {[ "bias" := mkTensor [2%nat] [1 # 2; 3 # 1]%Q ]}.

Definition bob_params : gmap string Tensor :=
  {[ "bias" := mkTensor [2%nat] [3 # 2; 1 # 1]%Q ]}.

Definition demo_args : Args := {| epochs := 2; lr := demo_lr;
                                  federate_after_n_batches := 1 |}.

(** The partitions of the lockstep scenario: 400, 400 and 325 batches. *)
Definition lockstep_loader : FederatedDataLoader (Batch:=nat) :=
  {| partition := [("alice", seq 0 400); ("bob", seq 0 400);
                   ("charlie", seq 0 325)];
     cursors := [] |}.

(** alice holds two batches, bob one. *)
Definition demo_loader : FederatedDataLoader (Batch:=nat) :=
  {| partition := [("alice", [0; 1]%nat); ("bob", [0%nat])]; cursors := [] |}.

(** A state at the top of the loop body as [train] on [demo_loader] with
    one batch per round reaches it for its second round: alice has a batch
    left, bob has none. *)
Definition demo_round2 : TrainState (Batch:=nat) (Metrics:=nat) :=
  {| model := {[ "bias" := mkTensor [2%nat] [49 # 100; 299 # 100]%Q ]};
     models := [("alice", {[ "bias" := mkTensor [2%nat] [49 # 100; 299 # 100]%Q ]});
                ("bob", {[ "bias" := mkTensor [2%nat] [49 # 100; 299 # 100]%Q ]})];
     loss_values := [("alice", [0%Q]); ("bob", [0%Q])];
     batches := [("alice", [1%nat]); ("bob", [])];
     counter := 1;
     data_for_all_workers := true;
     loader := {| partition := [("alice", [0; 1]%nat); ("bob", [0%nat])];
                  cursors := [("alice", []); ("bob", [])] |};
     trace := [] |}.

(** ** Further observations on traces and results *)

Section Observations.
Context {Batch Metrics : Type}.

(** The pairs printed by "Starting training round, batches [lo, hi]". *)
Definition banners (tr : list (Event (Batch:=Batch) (Metrics:=Metrics)))
  : list (Z * Z) :=
  omap (λ ev, match ev with
              | EvRoundStart lo hi => Some (lo, hi)
              | _ => None
              end) tr.

(** A state with the [loss_values] dict forgotten. *)
Definition erase_losses (st : TrainState (Batch:=Batch) (Metrics:=Metrics))
  : TrainState (Batch:=Batch) (Metrics:=Metrics) :=
  {| model := model st;
     models := models st;
     loss_values := [];
     batches := batches st;
     counter := counter st;
     data_for_all_workers := data_for_all_workers st;
     loader := loader st;
     trace := trace st |}.

Definition erase_result (r : TrainResult (Batch:=Batch) (Metrics:=Metrics))
  : TrainResult (Batch:=Batch) (Metrics:=Metrics) :=
  match r with
  | Returned st => Returned (erase_losses st)
  | Raised e st => Raised e (erase_losses st)
  | OutOfFuel => OutOfFuel
  end.

(** The model and the loader an epoch starts from, after the epochs with
    results [tss]. *)
Definition chain_end (m : gmap string Tensor)
    (l : FederatedDataLoader (Batch:=Batch))
    (tss : list (TrainState (Batch:=Batch) (Metrics:=Metrics)))
  : gmap string Tensor * FederatedDataLoader (Batch:=Batch) :=
  (default m (model <$> last tss), default l (loader <$> last tss)).

End Observations.

(** *** The order of the calls within a round *)

Section DispatchPoints.
Context {Batch TestLoader Metrics : Type}.
Context {C : Collaborators Batch TestLoader Metrics}.

(** The state in which the [for] loop of a round starts: the flag is set
    and the banner is printed. *)
Definition round_start (nr_batches : Z)
    (st : TrainState (Batch:=Batch) (Metrics:=Metrics))
  : TrainState (Batch:=Batch) (Metrics:=Metrics) :=
  {| model := model st;
     models := models st;
     loss_values := loss_values st;
     batches := batches st;
     counter := counter st;
     data_for_all_workers := true;
     loader := loader st;
     trace := trace st
              ++ [EvRoundStart (counter st) (counter st + nr_batches)] |}.

(** The loop state at the moment each call of [rwc.train_on_batches] is
    made, for the workers of [bs] in iteration order: the call for a
    worker is made in the state the loop body left for the worker before
    it. *)
Fixpoint dispatch_states (device : Device) (lr : Q)
    (st : TrainState (Batch:=Batch) (Metrics:=Metrics))
    (bs : list (WorkerId * list Batch))
  : list (WorkerId * TrainState (Batch:=Batch) (Metrics:=Metrics)) :=
  match bs with
  | [] => []
  | wb :: bs' =>
      (if has_data wb then [(wb.1, st)] else [])
      ++ dispatch_states device lr (train_worker device lr st wb) bs'
  end.

Definition round_dispatch_states (device : Device) (lr : Q)
    (nr_batches : Z) (st : TrainState (Batch:=Batch) (Metrics:=Metrics))
  : list (WorkerId * TrainState (Batch:=Batch) (Metrics:=Metrics)) :=
  dispatch_states device lr (round_start nr_batches st) (batches st).


End DispatchPoints.

(** Two worker sides return the same ParameterSets (their loss values may
    differ). *)
Definition same_models {Batch TestLoader Metrics : Type}
    (C1 C2 : Collaborators Batch TestLoader Metrics) : Prop :=
  ∀ w bs m device lr,
    (train_on_batches (Collaborators:=C1) w bs m device lr).1
    = (train_on_batches (Collaborators:=C2) w bs m device lr).1.

(** [demo_collaborators] without the loss report. *)
Definition silent_collaborators : Collaborators nat unit nat :=
  {| train_on_batches := λ w bs m device lr,
       (sgd_steps lr (length bs) <$> m, []);
     test := λ m device tl, size m |}.

(** alice holds four batches, bob three. *)
Definition uneven_loader : FederatedDataLoader (Batch:=nat) :=
  {| partition := [("alice", [0; 1; 2; 3]%nat); ("bob", [0; 1; 2]%nat)];
     cursors := [] |}.

Definition ragged_args : Args := {| epochs := 2; lr := demo_lr;
                                    federate_after_n_batches := 2 |}.

(** * Properties *)

(** ** The aggregator *)

Section AggregatorFacts.
Implicit Types (p q : gmap string Tensor) (t : Tensor).
Implicit Types (ms : list (WorkerId * gmap string Tensor)).

Lemma signature_lookup p name :
  signature p !! name = shape <$> p !! name.
Proof. unfold signature. apply lookup_fmap. Qed.

Lemma same_signature_lookup p q name t :
  same_signature p q → p !! name = Some t →
  ∃ t', q !! name = Some t' ∧ shape t' = shape t.
Proof.
  intros Hs Hp. apply (f_equal (.!! name)) in Hs.
  rewrite !signature_lookup, Hp in Hs.
  destruct (q !! name) as [t'|]; simplify_eq/=. eauto.
Qed.

Lemma param_add_lookup p q name t t' :
  p !! name = Some t → q !! name = Some t' →
  param_add p q !! name = Some (tensor_add t t').
Proof.
  intros Hp Hq. unfold param_add.
  rewrite lookup_intersection_with, Hp, Hq. done.
Qed.

Lemma signature_param_add p q :
  same_signature p q → signature (param_add p q) = signature p.
Proof.
  intros Hs. apply map_eq. intros name.
  rewrite !signature_lookup. unfold param_add.
  rewrite lookup_intersection_with.
  destruct (p !! name) as [t|] eqn:Hp; [|done].
  destruct (same_signature_lookup _ _ _ _ Hs Hp) as (t' & -> & _). done.
Qed.

Lemma signature_foldl_param_add qs : ∀ p,
  Forall (same_signature p) qs →
  signature (foldl param_add p qs) = signature p.
Proof.
  induction qs as [|q qs IH]; intros p Hall; [done|].
  apply Forall_cons in Hall as [Hq Hall]. cbn [foldl].
  rewrite IH; [by apply signature_param_add|].
  eapply Forall_impl; [exact Hall|]. intros q' Hq'.
  unfold same_signature in *. by rewrite signature_param_add.
Qed.

Lemma signature_tensor_div n p : signature (tensor_div n <$> p) = signature p.
Proof. unfold signature. rewrite <- map_fmap_compose. done. Qed.

Lemma shape_foldl_tensor_add ts : ∀ t, shape (foldl tensor_add t ts) = shape t.
Proof. induction ts as [|t' ts IH]; intros t; [done|]. cbn [foldl]. by rewrite IH. Qed.

(** Names: the sum of the models has a tensor wherever the first has. *)
Lemma foldl_param_add_lookup qs : ∀ p name t,
  Forall (same_signature p) qs → p !! name = Some t →
  ∃ ts, Forall2 (λ q t', q !! name = Some t' ∧ shape t' = shape t) qs ts ∧
        foldl param_add p qs !! name = Some (foldl tensor_add t ts).
Proof.
  induction qs as [|q qs IH]; intros p name t Hall Hp.
  - exists []. split; [constructor|done].
  - apply Forall_cons in Hall as [Hq Hall]. cbn [foldl].
    destruct (same_signature_lookup _ _ _ _ Hq Hp) as (t' & Hq' & Hsh).
    destruct (IH (param_add p q) name (tensor_add t t')) as (ts & Hts & Hl).
    + eapply Forall_impl; [exact Hall|]. intros q' Hs.
      unfold same_signature in *. by rewrite signature_param_add.
    + by apply param_add_lookup.
    + exists (t' :: ts). split; [|done]. constructor; [done|].
      eapply Forall2_impl; [exact Hts|]. by intros ?? [? ?].
Qed.

(** Elements: position [j] of the sum of tensors of equal length holds
    the sum of their values at [j]. *)
Lemma foldl_tensor_add_data ts : ∀ t j v,
  Forall (λ t', length (data t') = length (data t)) ts →
  data (foldl tensor_add t ts) !! j = Some v →
  ∃ v0 vs, data t !! j = Some v0 ∧
           Forall2 (λ t' x, data t' !! j = Some x) ts vs ∧
           v = foldl Qplus v0 vs.
Proof.
  induction ts as [|t' ts IH]; intros t j v Hlen Hv.
  - exists v, []. split; [done|]. split; [constructor|done].
  - apply Forall_cons in Hlen as [Hl Hlen]. cbn [foldl] in Hv.
    destruct (IH (tensor_add t t') j v) as (v0 & vs & H0 & Hvs & ->).
    + eapply Forall_impl; [exact Hlen|]. intros t'' Ht''.
      simpl in Ht''. unfold tensor_add; simpl.
      rewrite length_zip_with. lia.
    + done.
    + unfold tensor_add in H0; simpl in H0.
      apply lookup_zip_with_Some in H0 as (a & b & -> & Ha & Hb).
      exists a, (b :: vs). split; [done|]. split; [|done].
      by constructor.
Qed.

Lemma length_foldl_tensor_add ts : ∀ t,
  Forall (λ t', length (data t') = length (data t)) ts →
  length (data (foldl tensor_add t ts)) = length (data t).
Proof.
  induction ts as [|t' ts IH]; intros t Hlen; [done|].
  apply Forall_cons in Hlen as [Hl Hlen]. cbn [foldl].
  rewrite IH.
  - unfold tensor_add; simpl. rewrite length_zip_with. lia.
  - eapply Forall_impl; [exact Hlen|]. intros t'' Ht''.
    simpl in Ht''. unfold tensor_add; simpl.
    rewrite length_zip_with. lia.
Qed.

Lemma foldl_Qplus_Qsum vs : ∀ v0,
  (foldl Qplus v0 vs == Qsum (v0 :: vs))%Q.
Proof.
  induction vs as [|x vs IH]; intros v0; cbn [foldl].
  - unfold Qsum; simpl. ring.
  - rewrite IH. unfold Qsum; simpl. ring.
Qed.

Lemma federatedAverage_cons w p rest :
  Forall (λ wp, same_signature p wp.2) rest →
  federatedAverage ((w, p) :: rest)
  = Ok (tensor_div (S (length rest)) <$> foldl param_add p rest.*2).
Proof. intros H. unfold federatedAverage. by rewrite decide_True. Qed.

(** With one common signature the average exists and has it. *)
Lemma federatedAverage_ok ms sig :
  ms ≠ [] → Forall (λ wp, signature wp.2 = sig) ms →
  ∃ out, federatedAverage ms = Ok out ∧ signature out = sig.
Proof.
  intros Hne Hall. destruct ms as [|[w p] rest]; [done|].
  apply Forall_cons in Hall as [Hp Hall]. cbn [snd] in Hp.
  assert (Hrest : Forall (λ wp, same_signature p wp.2) rest).
  { eapply Forall_impl; [exact Hall|]. intros wp Hwp.
    unfold same_signature. congruence. }
  eexists. split; [by apply federatedAverage_cons|].
  rewrite signature_tensor_div, signature_foldl_param_add; [done|].
  by apply Forall_fmap.
Qed.

Lemma Qdiv_1_r_eq (x : Q) : (x / inject_Z (Z.of_nat 1))%Q = x.
Proof.
  destruct x as [a b]. unfold Qdiv, Qmult; simpl.
  by rewrite Z.mul_1_r, Pos.mul_1_r.
Qed.

Lemma tensor_div_1 t : tensor_div 1 t = t.
Proof.
  destruct t as [sh d]. unfold tensor_div; simpl. f_equal.
  induction d as [|x d IH]; [done|].
  rewrite fmap_cons, IH, Qdiv_1_r_eq. done.
Qed.

(** C3: for a non-empty mapping whose ParameterSets all have the same
    names and shapes, the federated average exists, has those names and
    shapes, and each of its values is the unweighted arithmetic mean of
    the workers' values at that name and position. *)
Theorem federatedAverage_is_mean ms sig :
  ms ≠ [] →
  Forall (λ wp, signature wp.2 = sig) ms →
  Forall (λ wp, params_wf wp.2) ms →
  ∃ out,
    federatedAverage ms = Ok out ∧
    signature out = sig ∧
    params_wf out ∧
    ∀ name t j v,
      out !! name = Some t → data t !! j = Some v →
      ∃ vs,
        Forall2 (λ wp x, ∃ tw, wp.2 !! name = Some tw ∧
                               data tw !! j = Some x) ms vs ∧
        (v == mean vs)%Q.
Proof.
  intros Hne Hsig Hwf.
  destruct (federatedAverage_ok ms sig Hne Hsig) as (out & Hout & Hso).
  exists out. split; [done|]. split; [done|].
  destruct ms as [|[w p] rest]; [done|]. clear Hne.
  apply Forall_cons in Hsig as [Hp Hsig]. cbn [snd] in Hp.
  apply Forall_cons in Hwf as [Hwp Hwf]. cbn [snd] in Hwp.
  assert (Hrest' : Forall (λ wp, same_signature p wp.2) rest).
  { eapply Forall_impl; [exact Hsig|].
    intros wp Hwp'. unfold same_signature. simpl in *. congruence. }
  assert (Hrest : Forall (same_signature p) rest.*2).
  { apply Forall_fmap. exact Hrest'. }
  rewrite federatedAverage_cons in Hout by exact Hrest'.
  injection Hout as <-.
  (* every tensor of the average comes from a sum of one tensor per worker *)
  assert (Hsum : ∀ name t, (tensor_div (S (length rest))
                 <$> foldl param_add p rest.*2) !! name = Some t →
    ∃ t0 ts, p !! name = Some t0 ∧
      Forall2 (λ wp t', wp.2 !! name = Some t' ∧ shape t' = shape t0)
        rest ts ∧
      Forall (λ t', length (data t') = length (data t0)) ts ∧
      t = tensor_div (S (length rest)) (foldl tensor_add t0 ts)).
  { intros name t Ht. rewrite lookup_fmap in Ht.
    destruct (foldl param_add p rest.*2 !! name) as [s|] eqn:Hs;
      [|done]. injection Ht as <-.
    assert (Hp0 : is_Some (p !! name)).
    { pose proof (signature_foldl_param_add _ _ Hrest) as Hsf.
      apply (f_equal (.!! name)) in Hsf.
      rewrite !signature_lookup, Hs in Hsf.
      destruct (p !! name); [eauto|done]. }
    destruct Hp0 as [t0 Hp0].
    destruct (foldl_param_add_lookup _ _ _ _ Hrest Hp0) as (ts & Hts & Hl).
    rewrite Hs in Hl. injection Hl as ->.
    apply Forall2_fmap_l in Hts.
    exists t0, ts. split; [done|]. split; [done|]. split; [|done].
    clear Hs. revert Hts Hwf. clear -Hwp Hp0.
    induction 1 as [|[w' q] t' rest ts [Hq Hsh] _ IH]; intros Hwf;
      [constructor|].
    apply Forall_cons in Hwf as [Hwq Hwf]. constructor; [|by apply IH].
    cbn [snd] in *. rewrite (Hwq _ _ Hq), (Hwp _ _ Hp0).
    by rewrite Hsh. }
  split.
  - intros name t Ht.
    destruct (Hsum name t Ht) as (t0 & ts & Hp0 & _ & Hlen & ->).
    unfold tensor_wf, tensor_div; simpl.
    rewrite length_fmap, length_foldl_tensor_add by done.
    rewrite shape_foldl_tensor_add. by apply (Hwp name).
  - intros name t j v Ht Hv.
    destruct (Hsum name t Ht) as (t0 & ts & Hp0 & Hts & Hlen & ->).
    unfold tensor_div in Hv; simpl in Hv.
    rewrite list_lookup_fmap in Hv.
    destruct (data (foldl tensor_add t0 ts) !! j) as [x|] eqn:Hx;
      [|done]. injection Hv as <-.
    destruct (foldl_tensor_add_data _ _ _ _ Hlen Hx)
      as (v0 & vs & Hv0 & Hvs & ->).
    exists (v0 :: vs). split.
    + constructor; [by exists t0|].
      clear -Hts Hvs. revert vs Hvs.
      induction Hts as [|[w' q] t' rest ts [Hq _] _ IH]; intros vs Hvs.
      * inversion Hvs. constructor.
      * inversion Hvs as [|? x ? vs' Hx Hvs']; subst.
        constructor; [by exists t'|]. by apply IH.
    + unfold mean. rewrite foldl_Qplus_Qsum.
      apply Forall2_length in Hvs. apply Forall2_length in Hts.
      cbn [length]. by rewrite <- Hvs, <- Hts.
Qed.

(** C4: over a mapping with exactly one worker the federated average
    is that worker's ParameterSet. *)
Theorem federatedAverage_single w p : federatedAverage [(w, p)] = Ok p.
Proof.
  rewrite federatedAverage_cons by constructor.
  cbn [length fmap list_fmap foldl]. f_equal.
  apply map_eq. intros name. rewrite lookup_fmap.
  destruct (p !! name) as [t|]; [|done]. simpl. by rewrite tensor_div_1.
Qed.

End AggregatorFacts.

Lemma params_wf_singleton name t :
  tensor_wf t → params_wf {[ name := t ]}.
Proof.
  intros Ht name' t' Hl. apply lookup_singleton_Some in Hl as [_ <-]. done.
Qed.

Lemma federatedAverage_is_mean_witness :
  ∃ out,
    federatedAverage [("alice", alice_params); ("bob", bob_params)] = Ok out ∧
    signature out = signature alice_params ∧
    params_wf out ∧
    ∀ name t j v,
      out !! name = Some t → data t !! j = Some v →
      ∃ vs,
        Forall2 (λ wp x, ∃ tw, wp.2 !! name = Some tw ∧
                               data tw !! j = Some x)
          [("alice", alice_params); ("bob", bob_params)] vs ∧
        (v == mean vs)%Q.
Proof.
  apply (federatedAverage_is_mean
           [("alice", alice_params); ("bob", bob_params)]
           (signature alice_params)).
  - done.
  - repeat constructor.
  - repeat constructor; by apply params_wf_singleton.
Defined.

(** The average of [1/2, 3] and [3/2, 1] is [1, 2], as unreduced
    fractions. *)
Example federatedAverage_demo :
  (λ out, data <$> out !! "bias")
    <$> (match federatedAverage [("alice", alice_params); ("bob", bob_params)]
         with Ok out => Some out | Err _ => None end)
  = Some (Some [8 # 8; 4 # 2]%Q).
Proof. vm_compute. reflexivity. Qed.

Example federatedAverage_demo_mismatch :
  federatedAverage
    [("alice", alice_params);
     ("bob", {[ "bias" := mkTensor [3%nat] [0; 0; 0]%Q ]})]
  = Err ShapeMismatch.
Proof. vm_compute. reflexivity. Qed.

(** ** The round loop *)

Section RoundFacts.
Context {Batch TestLoader Metrics : Type}.
Context {C : Collaborators Batch TestLoader Metrics}.
Implicit Types (st : TrainState (Batch:=Batch) (Metrics:=Metrics)).
Implicit Types (bs : list (WorkerId * list Batch)).
Implicit Types (ev : Event (Batch:=Batch) (Metrics:=Metrics)).

Lemma forallb_has_data_exhausted bs :
  forallb has_data bs = false ↔ exhausted bs.
Proof.
  unfold exhausted. induction bs as [|[w b] bs IH]; simpl.
  - split; [done|]. intros [w Hw]. by apply elem_of_nil in Hw.
  - destruct b as [|x b]; simpl.
    + split; [|done]. intros _. exists w. left.
    + rewrite IH. split; intros [w' Hw']; exists w'.
      * by right.
      * apply elem_of_cons in Hw' as [?|?]; [simplify_eq|done].
Qed.

(** The frame of the [for] loop: it touches [models], [loss_values],
    the flag and the trace only. *)
Lemma for_loop_frame device lr bs st :
  let st' := foldl (train_worker device lr) st bs in
  model st' = model st ∧ batches st' = batches st ∧
  counter st' = counter st ∧ loader st' = loader st ∧
  data_for_all_workers st'
    = data_for_all_workers st && forallb has_data bs ∧
  trace st' = trace st ++ dispatches (model st) bs.
Proof.
  revert st. induction bs as [|[w b] bs IH]; intros st; simpl.
  - rewrite andb_true_r, app_nil_r. done.
  - specialize (IH (train_worker device lr st (w, b))).
    simpl in IH. destruct IH as (Hm & Hb & Hc & Hl & Hd & Ht).
    rewrite Hm, Hb, Hc, Hl, Hd, Ht.
    unfold dispatches, has_data.
    destruct b as [|x b]; simpl; split_and!; try done.
    + by rewrite andb_false_r.
    + by rewrite <- app_assoc.
Qed.

#[local] Arguments round_train : simpl never.
#[local] Arguments round : simpl never.

Lemma round_train_frame device lr nr st :
  let st' := round_train device lr nr st in
  model st' = model st ∧ batches st' = batches st ∧
  counter st' = counter st + nr ∧ loader st' = loader st ∧
  data_for_all_workers st' = forallb has_data (batches st) ∧
  trace st' = trace st ++ EvRoundStart (counter st) (counter st + nr)
                       :: dispatches (model st) (batches st).
Proof.
  unfold round_train; cbn [model models batches counter loader trace
    data_for_all_workers loss_values].
  match goal with |- context [foldl _ ?s ?l] =>
    destruct (for_loop_frame device lr l s) as (Hm & Hb & Hc & Hl & Hd & Ht)
  end.
  rewrite Hm, Hb, Hc, Hl, Hd, Ht; simpl.
  rewrite <- app_assoc. done.
Qed.

(** A round with an empty assignment takes the [break]. *)
Lemma round_exhausted device lr nr st :
  exhausted (batches st) →
  round device lr nr st = Break (log EvStop (round_train device lr nr st)).
Proof.
  intros Hex. unfold round.
  destruct (round_train_frame device lr nr st) as (_ & _ & _ & _ & Hd & _).
  rewrite Hd. apply forallb_has_data_exhausted in Hex. by rewrite Hex.
Qed.

Lemma round_events_exhausted device lr nr st :
  exhausted (batches st) →
  round_events device lr nr st
  = EvRoundStart (counter st) (counter st + nr)
      :: dispatches (model st) (batches st) ++ [EvStop].
Proof.
  intros Hex. unfold round_events. rewrite round_exhausted by done.
  cbn [outcome_state log trace]. destruct (round_train_frame device lr nr st)
    as (_ & _ & _ & _ & _ & Ht).
  rewrite Ht, <- app_assoc, drop_app_length. done.
Qed.

Lemma dispatches_only_dispatch m bs ev :
  ev ∈ dispatches m bs → is_dispatch ev = true.
Proof.
  unfold dispatches. intros Hin.
  apply list_elem_of_fmap in Hin as (wb & -> & _). done.
Qed.

Lemma exhausted_round_breaks device lr nr st fuel :
  exhausted (batches st) →
  ∃ st', round device lr nr st = Break st' ∧
         train_loop (S fuel) device lr nr st = Returned st' ∧
         model st' = model st ∧
         trace st' = trace st ++ round_events device lr nr st.
Proof.
  intros Hex. eexists. split; [by apply round_exhausted|].
  split; [cbn [train_loop]; by rewrite round_exhausted|].
  rewrite round_events_exhausted by done.
  destruct (round_train_frame device lr nr st)
    as (Hm & _ & _ & _ & _ & Ht).
  cbn [log model trace]. split; [done|].
  rewrite Ht, <- app_assoc. done.
Qed.

(** C1: in a round where some worker's assignment is empty, the loop
    performs no aggregation and ends; the model [train]'s loop returns
    is the model held when the round began. *)
Theorem exhaustion_keeps_global_model device lr nr st fuel :
  exhausted (batches st) →
  ∃ st',
    round device lr nr st = Break st' ∧
    train_loop (S fuel) device lr nr st = Returned st' ∧
    model st' = model st ∧
    trace st' = trace st ++ round_events device lr nr st ∧
    ∀ ev, ev ∈ round_events device lr nr st → is_aggregate ev = false.
Proof.
  intros Hex.
  destruct (exhausted_round_breaks device lr nr st fuel Hex)
    as (st' & Hr & Hl & Hm & Ht).
  exists st'. split_and!; try done.
  rewrite round_events_exhausted by done.
  intros ev Hev. apply elem_of_cons in Hev as [->|Hev]; [done|].
  apply elem_of_app in Hev as [Hev|Hev].
  - apply dispatches_only_dispatch in Hev. by destruct ev.
  - apply list_elem_of_singleton in Hev. by subst.
Qed.

Lemma elem_of_dispatches m bs w b m' :
  EvDispatch (Metrics:=Metrics) w b m' ∈ dispatches m bs
  ↔ m' = m ∧ (w, b) ∈ bs ∧ b ≠ [].
Proof.
  unfold dispatches. rewrite list_elem_of_fmap. split.
  - intros ([w' b'] & Heq & Hin). simpl in Heq. simplify_eq.
    apply list_elem_of_In, filter_In in Hin as [Hin Hd].
    apply list_elem_of_In in Hin. split_and!; [done|done|].
    by destruct b'.
  - intros (-> & Hin & Hb). exists (w, b). split; [done|].
    apply list_elem_of_In, filter_In. split; [by apply list_elem_of_In|].
    by destruct b.
Qed.

(** C2 (amended): in a round where some worker's assignment is empty the
    loop signals the end of the epoch and neither aggregates nor fetches;
    it dispatches local training exactly to the workers whose assignment
    is non-empty, with the model the round began with. *)
Theorem exhausted_round_dispatches_workers_with_data device lr nr st :
  exhausted (batches st) →
  (∃ st', round device lr nr st = Break st') ∧
  last (round_events device lr nr st) = Some EvStop ∧
  (∀ ev, ev ∈ round_events device lr nr st →
         is_aggregate ev = false ∧ is_fetch ev = false) ∧
  (∀ w b m, EvDispatch w b m ∈ round_events device lr nr st
            ↔ m = model st ∧ (w, b) ∈ batches st ∧ b ≠ []).
Proof.
  intros Hex. split; [by eexists; apply round_exhausted|].
  rewrite round_events_exhausted by done. split_and!.
  - rewrite app_comm_cons. apply last_snoc.
  - intros ev Hev. apply elem_of_cons in Hev as [->|Hev]; [done|].
    apply elem_of_app in Hev as [Hev|Hev].
    + apply dispatches_only_dispatch in Hev. by destruct ev.
    + apply list_elem_of_singleton in Hev. by subst.
  - intros w b m. rewrite elem_of_cons, elem_of_app, elem_of_dispatches.
    rewrite list_elem_of_singleton. split.
    + intros [Heq|[Hd|Heq]]; [done|exact Hd|done].
    + intros Hd. right. by left.
Qed.

(** *** The [models] dict after the [for] loop *)

Lemma dict_set_app_fresh {V} (k : WorkerId) (v : V) pre d :
  k ∉ pre.*1 → dict_set k v (pre ++ d) = pre ++ dict_set k v d.
Proof.
  induction pre as [|[k' v'] pre IH]; intros Hk; [done|].
  simpl in *. apply not_elem_of_cons in Hk as [Hne Hk].
  rewrite decide_False by done. by rewrite IH.
Qed.

Lemma dict_set_head {V} (k : WorkerId) (v v0 : V) d :
  dict_set k v ((k, v0) :: d) = (k, v) :: d.
Proof. simpl. by rewrite decide_True. Qed.

Lemma dict_set_not_nil {V} (k : WorkerId) (v : V) d : dict_set k v d ≠ [].
Proof. destruct d as [|[k' v'] d]; simpl; [done|]. by case_decide. Qed.

Lemma dict_set_Forall {V} (P : WorkerId * V → Prop) k v d :
  P (k, v) → Forall P d → Forall P (dict_set k v d).
Proof.
  intros Hk. induction 1 as [|[k' v'] d Hx Hd IH]; simpl.
  - by repeat constructor.
  - case_decide; constructor; done.
Qed.

Lemma for_loop_models device lr bs : ∀ st pre old,
  NoDup bs.*1 → all_have_data bs →
  models st = pre ++ old →
  (old = [] ∨ old.*1 = bs.*1) →
  (∀ k, k ∈ pre.*1 → k ∉ bs.*1) →
  models (foldl (train_worker device lr) st bs)
  = pre ++ round_results device lr (model st) bs.
Proof.
  unfold all_have_data.
  induction bs as [|[w b] bs IH]; intros st pre old Hnd Hall Hm Hold Hpre.
  - simpl. destruct Hold as [->| Hold]; [done|].
    apply fmap_nil_inv in Hold. by subst.
  - simpl in Hall. apply andb_true_iff in Hall as [Hb Hall].
    destruct b as [|x b]; [done|].
    rewrite fmap_cons in Hnd. apply NoDup_cons in Hnd as [Hw Hnd].
    cbn [foldl].
    set (r := train_on_batches w (x :: b) (model st) device lr).
    assert (Hfresh : w ∉ pre.*1).
    { intros Hin. apply (Hpre _ Hin). rewrite fmap_cons. left. }
    assert (Hm' : ∃ old', models (train_worker device lr st (w, x :: b))
               = (pre ++ [(w, r.1)]) ++ old' ∧
               (old' = [] ∨ old'.*1 = bs.*1)).
    { cbn [train_worker models fst snd]. fold r. rewrite Hm.
      rewrite dict_set_app_fresh by done.
      destruct Hold as [->|Hold].
      - exists []. rewrite app_nil_r. auto.
      - destruct old as [|[k v0] old']; [done|].
        rewrite !fmap_cons in Hold. cbn [fst] in Hold.
        injection Hold as -> Hold.
        exists old'. rewrite dict_set_head, <- app_assoc. auto. }
    destruct Hm' as (old' & Hm' & Hold').
    rewrite (IH _ (pre ++ [(w, r.1)]) old' Hnd Hall Hm' Hold').
    + cbn [train_worker model fst snd]. unfold round_results.
      rewrite fmap_cons, <- app_assoc. done.
    + intros k Hk. rewrite fmap_app in Hk.
      apply elem_of_app in Hk as [Hk|Hk].
      * specialize (Hpre k Hk). rewrite fmap_cons in Hpre.
        by apply not_elem_of_cons in Hpre as [_ ?].
      * apply list_elem_of_singleton in Hk. by subst.
Qed.

Lemma round_train_models device lr nr st :
  dict_inv st → all_have_data (batches st) →
  models (round_train device lr nr st)
  = round_results device lr (model st) (batches st).
Proof.
  intros (Hnd & _ & Hold) Hall. unfold round_train. cbn [models].
  erewrite (for_loop_models device lr (batches st) _ [] (models st));
    [done|done|done|done|done|].
  intros k Hk. by apply elem_of_nil in Hk.
Qed.

(** A round in which every assignment is non-empty goes on to the
    aggregation. *)
Lemma round_full device lr nr st :
  all_have_data (batches st) →
  let st1 := round_train device lr nr st in
  round device lr nr st
  = match federatedAverage (models st1) with
    | Err e => Raise e (log (EvAggregate (models st1)) st1)
    | Ok m =>
        Continue
          {| model := m;
             models := models st1;
             loss_values := loss_values st1;
             batches := (get_next_batches (loader st1) nr).1;
             counter := counter st1;
             data_for_all_workers := data_for_all_workers st1;
             loader := (get_next_batches (loader st1) nr).2;
             trace := trace st1 ++ [EvAggregate (models st1); EvFetch nr] |}
    end.
Proof.
  intros Hall. unfold round.
  destruct (round_train_frame device lr nr st) as (_ & _ & _ & _ & Hd & _).
  rewrite Hd, Hall. cbn [negb log models loader counter trace
    data_for_all_workers loss_values].
  destruct (federatedAverage _); [|done].
  rewrite <- app_assoc, ?Hd. done.
Qed.

Lemma round_Continue_inv device lr nr st st' :
  round device lr nr st = Continue st' →
  all_have_data (batches st) ∧
  federatedAverage (models (round_train device lr nr st)) = Ok (model st') ∧
  models st' = models (round_train device lr nr st) ∧
  batches st' = (get_next_batches (loader st) nr).1 ∧
  loader st' = (get_next_batches (loader st) nr).2 ∧
  counter st' = counter st + nr ∧
  trace st' = trace st
    ++ EvRoundStart (counter st) (counter st + nr)
       :: dispatches (model st) (batches st)
    ++ [EvAggregate (models (round_train device lr nr st)); EvFetch nr].
Proof.
  intros Hr.
  assert (Hall : all_have_data (batches st)).
  { unfold all_have_data.
    destruct (round_train_frame device lr nr st)
      as (_ & _ & _ & _ & Hd & _).
    destruct (forallb has_data (batches st)) eqn:E; [done|].
    unfold round in Hr. cbn zeta in Hr. by rewrite Hd in Hr. }
  split; [done|]. rewrite (round_full _ _ _ _ Hall) in Hr.
  cbn zeta in Hr.
  destruct (round_train_frame device lr nr st)
    as (_ & _ & Hc & Hl & _ & Ht).
  revert Hr Hc Hl Ht.
  generalize (round_train device lr nr st). intros st1 Hr Hc Hl Ht.
  destruct (federatedAverage _) as [m|e]; [|done].
  injection Hr as <-. cbn [model models batches loader counter trace].
  rewrite Hl, Hc, Ht, <- app_assoc. done.
Qed.

Lemma get_next_batches_keys (l : FederatedDataLoader (Batch:=Batch)) nr :
  (get_next_batches l nr).1.*1 = (cursors l).*1 ∧
  (cursors (get_next_batches l nr).2).*1 = (cursors l).*1.
Proof.
  unfold get_next_batches. cbn [fst snd cursors].
  rewrite <- !list_fmap_compose. split; by apply list_fmap_ext; intros ? [].
Qed.

Lemma round_results_keys device lr m bs :
  (round_results device lr m bs).*1 = bs.*1.
Proof.
  unfold round_results. rewrite <- list_fmap_compose.
  by apply list_fmap_ext.
Qed.

Lemma dict_inv_init m (l : FederatedDataLoader (Batch:=Batch)) nr :
  distinct_workers l → dict_inv (Metrics:=Metrics) (train_init m l nr).
Proof.
  intros Hnd. unfold dict_inv, train_init. cbn [batches loader models].
  destruct (get_next_batches_keys (iter l) nr) as [H1 H2].
  rewrite H1, H2. split_and!; [done|done|by left].
Qed.

Lemma dict_inv_round device lr nr st st' :
  dict_inv st → round device lr nr st = Continue st' → dict_inv st'.
Proof.
  intros Hinv Hr.
  apply round_Continue_inv in Hr
    as (Hall & _ & Hms & Hbs & Hld & _ & _).
  pose proof Hinv as (Hnd & Hk & _).
  unfold dict_inv. rewrite Hms, Hbs, Hld.
  rewrite (round_train_models _ _ _ _ Hinv Hall), round_results_keys.
  destruct (get_next_batches_keys (loader st) nr) as [H1 H2].
  rewrite H1, H2, <- Hk. split_and!; [done|done|by right].
Qed.

Lemma dict_inv_rounds device lr nr k : ∀ st st',
  dict_inv st → rounds k device lr nr st = Some st' → dict_inv st'.
Proof.
  induction k as [|k IH]; intros st st' Hinv Hr; cbn [rounds] in Hr.
  - by simplify_eq.
  - destruct (round device lr nr st) as [st1| |] eqn:E; try done.
    eapply IH; [|done]. by eapply dict_inv_round.
Qed.

Lemma rounds_counter device lr nr k : ∀ st st',
  rounds k device lr nr st = Some st' →
  counter st' = counter st + Z.of_nat k * nr.
Proof.
  induction k as [|k IH]; intros st st' Hr; cbn [rounds] in Hr.
  - simplify_eq. lia.
  - destruct (round device lr nr st) as [st1| |] eqn:E; try done.
    apply IH in Hr. apply round_Continue_inv in E
      as (_ & _ & _ & _ & _ & Hc & _).
    lia.
Qed.

Lemma rounds_snoc device lr nr k : ∀ st st1 st2,
  rounds k device lr nr st = Some st1 →
  round device lr nr st1 = Continue st2 →
  rounds (S k) device lr nr st = Some st2.
Proof.
  induction k as [|k IH]; intros st st1 st2 Hk Hr.
  - cbn [rounds] in *. simplify_eq. by rewrite Hr.
  - cbn [rounds] in Hk.
    destruct (round device lr nr st) as [st'| |] eqn:E; try done.
    change (rounds (S (S k)) device lr nr st)
      with (match round device lr nr st with
            | Continue st' => rounds (S k) device lr nr st'
            | _ => None
            end).
    rewrite E. by eapply IH.
Qed.

(** C7: starting from the state in which [train] enters its loop, after
    [k] rounds that all went on the counter is [k * nr_batches]; and a
    further round in which every worker has a non-empty assignment
    replaces the model by the federated average of that round's
    per-worker results, then fetches the next batches, and adds
    [nr_batches] to the counter. *)
Theorem full_round_aggregates_and_counts device lr nr m0
    (l : FederatedDataLoader (Batch:=Batch)) k st :
  distinct_workers l →
  rounds k device lr nr (train_init m0 l nr) = Some st →
  counter st = Z.of_nat k * nr ∧
  ∀ m, all_have_data (batches st) →
    federatedAverage (round_results device lr (model st) (batches st))
      = Ok m →
    ∃ st',
      round device lr nr st = Continue st' ∧
      rounds (S k) device lr nr (train_init m0 l nr) = Some st' ∧
      model st' = m ∧
      counter st' = counter st + nr ∧
      counter st' = Z.of_nat (S k) * nr ∧
      batches st' = (get_next_batches (loader st) nr).1 ∧
      round_events device lr nr st
      = EvRoundStart (counter st) (counter st + nr)
          :: dispatches (model st) (batches st)
          ++ [EvAggregate
                (round_results device lr (model st) (batches st));
              EvFetch nr].
Proof.
  intros Hnd Hk.
  pose proof (rounds_counter _ _ _ _ _ _ Hk) as Hc.
  cbn [train_init counter] in Hc. split; [lia|].
  intros m Hall Havg.
  pose proof (dict_inv_rounds _ _ _ _ _ _ (dict_inv_init m0 l nr Hnd) Hk)
    as Hinv.
  pose proof (round_full device lr nr st Hall) as Hr. cbn zeta in Hr.
  rewrite (round_train_models _ _ _ _ Hinv Hall), Havg in Hr.
  eexists. split; [exact Hr|].
  destruct (round_train_frame device lr nr st)
    as (_ & _ & Hcn & Hl & _ & Ht).
  split_and!.
  - by eapply rounds_snoc.
  - done.
  - cbn [counter]. lia.
  - cbn [counter]. lia.
  - cbn [batches]. by rewrite Hl.
  - unfold round_events. rewrite Hr. cbn [outcome_state trace].
    rewrite Ht, <- app_assoc, drop_app_length. done.
Qed.

(** C5: the federated average fails exactly when the mapping is empty
    ([EmptyAggregationInput]) or two of its ParameterSets disagree on
    names or shapes ([ShapeMismatch]); and when it fails inside a round
    the loop raises with the model the round began with. *)
Theorem federatedAverage_fails_iff ms device lr nr st :
  ((∃ e, federatedAverage ms = Err e) ↔ ms = [] ∨ disagree ms) ∧
  (federatedAverage ms = Err EmptyAggregationInput ↔ ms = []) ∧
  (federatedAverage ms = Err ShapeMismatch ↔ disagree ms) ∧
  ∀ e st', round device lr nr st = Raise e st' →
    federatedAverage (models st') = Err e ∧
    model st' = model st ∧
    ∀ fuel, train_loop (S fuel) device lr nr st = Raised e st'.
Proof.
  assert (Hcases : (ms = [] ∧ federatedAverage ms = Err EmptyAggregationInput)
    ∨ (ms ≠ [] ∧ disagree ms ∧ federatedAverage ms = Err ShapeMismatch)
    ∨ (ms ≠ [] ∧ ¬ disagree ms ∧ ∃ out, federatedAverage ms = Ok out)).
  { destruct ms as [|[w p] rest]; [by left|]. right.
    unfold federatedAverage. case_decide as Hall.
    - right. split; [done|]. split; [|eauto].
      intros (w1 & p1 & w2 & p2 & H1 & H2 & Hne). apply Hne.
      assert (Hp : ∀ w' p', (w', p') ∈ (w, p) :: rest →
                   signature p' = signature p).
      { intros w' p' Hin. apply elem_of_cons in Hin as [?|Hin];
          [by simplify_eq|].
        rewrite Forall_forall in Hall. symmetry. apply (Hall _ Hin). }
      by rewrite (Hp _ _ H1), (Hp _ _ H2).
    - left. split; [done|]. split; [|done].
      apply not_Forall_Exists in Hall; [|apply _].
      apply Exists_exists in Hall as ([w' p'] & Hin & Hne).
      exists w, p, w', p'. split_and!; [left|by right|done]. }
  split_and!.
  - split.
    + intros [e He]. destruct Hcases as [[? _]|[(_ & ? & _)|(_ & _ & out & Ho)]];
        [by left|by right|congruence].
    + intros [->|Hd]; [by eexists|].
      destruct Hcases as [[-> _]|[(_ & _ & ?)|(_ & ? & _)]];
        [by eexists|by eexists|done].
  - split; [|by intros ->].
    intros He. destruct Hcases as [[? _]|[(_ & _ & ?)|(_ & _ & out & Ho)]];
      [done|congruence|congruence].
  - split.
    + intros He. destruct Hcases as [[_ ?]|[(_ & ? & _)|(_ & _ & out & Ho)]];
        [congruence|done|congruence].
    + intros Hd. destruct Hcases as [[-> _]|[(_ & _ & ?)|(_ & ? & _)]];
        [|done|done].
      destruct Hd as (w1 & p1 & _ & _ & H1 & _). by apply elem_of_nil in H1.
  - intros e st' Hr.
    assert (Hall : all_have_data (batches st)).
    { unfold all_have_data.
      destruct (forallb has_data (batches st)) eqn:E; [done|].
      apply forallb_has_data_exhausted in E.
      by rewrite (round_exhausted _ _ _ _ E) in Hr. }
    pose proof Hr as Hr'.
    rewrite (round_full _ _ _ _ Hall) in Hr. cbn zeta in Hr.
    destruct (round_train_frame device lr nr st) as (Hm & _).
    destruct (federatedAverage (models (round_train device lr nr st)))
      as [m|e'] eqn:Havg; [done|].
    injection Hr as <- <-. cbn [log models model].
    split_and!; [done|done|]. intros fuel. cbn [train_loop].
    by rewrite Hr'.
Qed.

(** *** Termination of the loop *)

Lemma total_batches_cons w (b : list Batch) bs :
  total_batches ((w, b) :: bs) = (length b + total_batches bs)%nat.
Proof. done. Qed.

Lemma total_batches_next (l : FederatedDataLoader (Batch:=Batch)) nr :
  (total_batches (get_next_batches l nr).1
   + total_batches (cursors (get_next_batches l nr).2))%nat
  = total_batches (cursors l).
Proof.
  unfold get_next_batches. cbn [fst snd cursors].
  induction (cursors l) as [|[w c] cs IH]; [done|].
  rewrite !fmap_cons. unfold prod_map at 1 3. cbn [fst snd id nextBatches].
  rewrite !total_batches_cons, <- IH.
  rewrite <- (take_drop (Z.to_nat nr) c) at 3. rewrite length_app.
  unfold nextBatches; cbn [fst snd]. lia.
Qed.

Lemma total_batches_pos bs :
  bs ≠ [] → all_have_data bs → (0 < total_batches bs)%nat.
Proof.
  unfold all_have_data. destruct bs as [|[w b] bs]; [done|].
  intros _ Hall. simpl in Hall. apply andb_true_iff in Hall as [Hb _].
  rewrite total_batches_cons. destruct b; [done|]. simpl. lia.
Qed.

Lemma for_loop_models_not_nil device lr bs : ∀ st,
  models st ≠ [] → models (foldl (train_worker device lr) st bs) ≠ [].
Proof.
  induction bs as [|[w b] bs IH]; intros st Hne; [done|].
  cbn [foldl]. apply IH. destruct b; cbn [train_worker models snd]; [done|].
  apply dict_set_not_nil.
Qed.

Lemma round_train_models_not_nil device lr nr st :
  batches st ≠ [] → all_have_data (batches st) →
  models (round_train device lr nr st) ≠ [].
Proof.
  unfold round_train, all_have_data. cbn [models].
  destruct (batches st) as [|[w b] bs]; [done|]. intros _ Hall.
  simpl in Hall. apply andb_true_iff in Hall as [Hb _].
  destruct b as [|x b]; [done|]. cbn [foldl].
  apply for_loop_models_not_nil. cbn [train_worker models snd].
  apply dict_set_not_nil.
Qed.

Lemma round_Continue_workers device lr nr st st' :
  term_inv st → round device lr nr st = Continue st' → batches st ≠ [].
Proof.
  intros [_ Hnil] Hr Hbs.
  apply round_Continue_inv in Hr as (_ & Havg & _).
  unfold round_train in Havg. cbn [models] in Havg.
  rewrite Hbs in Havg. cbn [foldl models] in Havg.
  by rewrite (Hnil Hbs) in Havg.
Qed.

Lemma round_Continue_progress device lr nr st st' :
  term_inv st → round device lr nr st = Continue st' →
  term_inv st' ∧ (remaining st' < remaining st)%nat.
Proof.
  intros Hinv Hr.
  pose proof (round_Continue_workers _ _ _ _ _ Hinv Hr) as Hne.
  destruct Hinv as [Hlen _].
  apply round_Continue_inv in Hr as (Hall & _ & _ & Hbs & Hld & _ & _).
  destruct (get_next_batches_keys (loader st) nr) as [H1 H2].
  apply (f_equal length) in H1, H2. rewrite !length_fmap in H1, H2.
  split.
  - unfold term_inv. rewrite Hbs, Hld, H1, H2. split; [done|].
    intros Hnil. rewrite Hnil in H1. simpl in H1.
    destruct (batches st); [done|]. simpl in Hlen. lia.
  - unfold remaining. rewrite Hbs, Hld, total_batches_next.
    pose proof (total_batches_pos _ Hne Hall). lia.
Qed.

Lemma train_loop_terminates device lr nr fuel : ∀ st,
  term_inv st → (remaining st < fuel)%nat →
  train_loop fuel device lr nr st ≠ OutOfFuel.
Proof.
  induction fuel as [|fuel IH]; intros st Hinv Hlt; [lia|].
  cbn [train_loop].
  destruct (round device lr nr st) as [st'|st'|e st'] eqn:E; [|done|done].
  destruct (round_Continue_progress _ _ _ _ _ Hinv E) as [Hinv' Hlt'].
  apply IH; [done|lia].
Qed.

Lemma term_inv_init m (l : FederatedDataLoader (Batch:=Batch)) nr :
  term_inv (Metrics:=Metrics) (train_init m l nr) ∧
  remaining (Metrics:=Metrics) (train_init m l nr)
  = total_batches (partition l).
Proof.
  unfold term_inv, remaining, train_init. cbn [batches loader models].
  destruct (get_next_batches_keys (iter l) nr) as [H1 H2].
  apply (f_equal length) in H1, H2. rewrite !length_fmap in H1, H2.
  rewrite H1, H2, total_batches_next. done.
Qed.

(** [train] always returns or raises: the fuel it is run with suffices. *)
Lemma train_terminates m device (l : FederatedDataLoader (Batch:=Batch))
    lr nr :
  train (Metrics:=Metrics) m device l lr nr ≠ OutOfFuel.
Proof.
  unfold train. destruct (term_inv_init m l nr) as [Hinv Hrem].
  apply train_loop_terminates; [done|]. rewrite Hrem. lia.
Qed.

(** *** Rounds under signature-preserving local training *)

Lemma for_loop_models_sig device lr bs :
  signature_preserving → ∀ st,
  Forall (λ wp, signature wp.2 = signature (model st)) (models st) →
  Forall (λ wp, signature wp.2 = signature (model st))
    (models (foldl (train_worker device lr) st bs)).
Proof.
  intros Hsp. induction bs as [|[w b] bs IH]; intros st Hall; [done|].
  cbn [foldl].
  assert (Hm : model (train_worker device lr st (w, b)) = model st)
    by (by destruct b).
  rewrite <- Hm. apply IH. rewrite Hm.
  destruct b as [|x b]; cbn [train_worker models fst snd]; [done|].
  apply dict_set_Forall; [|done]. cbn [snd]. apply Hsp.
Qed.

Lemma round_train_models_sig device lr nr st :
  signature_preserving →
  Forall (λ wp, signature wp.2 = signature (model st)) (models st) →
  Forall (λ wp, signature wp.2 = signature (model st))
    (models (round_train device lr nr st)).
Proof.
  intros Hsp Hall. unfold round_train. cbn [models].
  by apply (for_loop_models_sig device lr (batches st) Hsp
    (mkTrainState _ _ _ _ _ _ _ _)).
Qed.

Lemma Forall_round_event_dispatches m bs :
  Forall round_event (dispatches (Metrics:=Metrics) m bs).
Proof.
  unfold dispatches. apply Forall_fmap, Forall_forall. by intros.
Qed.

Lemma round_Break_inv device lr nr st st' :
  round device lr nr st = Break st' →
  model st' = model st ∧ loader st' = loader st ∧
  trace st' = trace st
    ++ EvRoundStart (counter st) (counter st + nr)
       :: dispatches (model st) (batches st) ++ [EvStop].
Proof.
  intros Hr.
  destruct (round_train_frame device lr nr st)
    as (Hm & _ & _ & Hl & Hd & Ht).
  unfold round in Hr. cbn zeta in Hr.
  destruct (negb _).
  - injection Hr as <-. cbn [log model loader trace].
    rewrite Hm, Hl, Ht, <- app_assoc. done.
  - by destruct (federatedAverage _).
Qed.

(** With at least one worker and signature-preserving local training
    the loop returns: no round raises. *)
Lemma train_loop_returns device lr nr fuel :
  signature_preserving → ∀ st,
  batches st ≠ [] → term_inv st →
  Forall (λ wp, signature wp.2 = signature (model st)) (models st) →
  Forall round_event (trace st) →
  (remaining st < fuel)%nat →
  ∃ ts, train_loop fuel device lr nr st = Returned ts ∧
        signature (model ts) = signature (model st) ∧
        partition (loader ts) = partition (loader st) ∧
        Forall round_event (trace ts) ∧
        last (trace ts) = Some EvStop.
Proof.
  intros Hsp. induction fuel as [|fuel IH];
    intros st Hne Hinv Hsig Htr Hlt; [lia|].
  cbn [train_loop].
  destruct (round device lr nr st) as [st'|st'|e st'] eqn:E.
  - destruct (round_Continue_progress _ _ _ _ _ Hinv E) as [Hinv' Hlt'].
    pose proof E as E'.
    apply round_Continue_inv in E
      as (Hall & Havg & Hms & Hbs & Hld & _ & Ht).
    pose proof (round_train_models_sig device lr nr st Hsp Hsig) as Hsig1.
    pose proof (round_train_models_not_nil device lr nr st Hne Hall) as Hnn.
    destruct (federatedAverage_ok _ _ Hnn Hsig1) as (out & Hout & Hso).
    rewrite Hout in Havg. injection Havg as Hmo.
    destruct (IH st') as (ts & Hts & Hs & Hp & Hev & Hlast).
    + destruct Hinv as [Hlen _], Hinv' as [Hlen' _].
      rewrite Hbs, Hld in Hlen'.
      destruct (get_next_batches_keys (loader st) nr) as [H1 H2].
      apply (f_equal length) in H1. rewrite !length_fmap in H1.
      intros Hnil. rewrite Hbs in Hnil. rewrite Hnil in H1.
      destruct (batches st); [done|]. simpl in *. lia.
    + done.
    + rewrite Hms, <- Hmo, Hso. done.
    + rewrite Ht. apply Forall_app. split; [done|].
      constructor; [done|]. apply Forall_app.
      split; [apply Forall_round_event_dispatches|].
      by repeat constructor.
    + lia.
    + exists ts. split; [done|]. rewrite Hs, Hp, Hld, <- Hmo, Hso. done.
  - apply round_Break_inv in E as (Hm & Hl & Ht).
    exists st'. rewrite Hm, Hl, Ht. split_and!; try done.
    + apply Forall_app. split; [done|]. constructor; [done|].
      apply Forall_app. split; [apply Forall_round_event_dispatches|].
      by repeat constructor.
    + rewrite app_comm_cons, app_assoc. apply last_snoc.
  - exfalso.
    destruct (forallb has_data (batches st)) eqn:Hall.
    + rewrite (round_full device lr nr st Hall) in E. cbn zeta in E.
      pose proof (round_train_models_sig device lr nr st Hsp Hsig) as Hsig1.
      pose proof (round_train_models_not_nil device lr nr st Hne Hall)
        as Hnn.
      destruct (federatedAverage_ok _ _ Hnn Hsig1) as (out & Hout & _).
      by rewrite Hout in E.
    + apply forallb_has_data_exhausted in Hall.
      by rewrite (round_exhausted _ _ _ _ Hall) in E.
Qed.

Lemma train_returns m device (l : FederatedDataLoader (Batch:=Batch))
    lr nr :
  signature_preserving → partition l ≠ [] →
  ∃ ts, train (Metrics:=Metrics) m device l lr nr = Returned ts ∧
        signature (model ts) = signature m ∧
        partition (loader ts) = partition l ∧
        Forall round_event (trace ts) ∧
        last (trace ts) = Some EvStop.
Proof.
  intros Hsp Hne. unfold train.
  destruct (term_inv_init m l nr) as [Hinv Hrem].
  apply (train_loop_returns device lr nr _ Hsp (train_init m l nr)).
  - unfold train_init. cbn [batches].
    destruct (get_next_batches_keys (iter l) nr) as [H1 _].
    intros Hnil. rewrite Hnil in H1. cbn [iter cursors] in H1.
    destruct (partition l); done.
  - done.
  - constructor.
  - by repeat constructor.
  - rewrite Hrem. lia.
Qed.

(** *** The schedule of an epoch *)

Lemma schedule_closed_form nr k (l : FederatedDataLoader (Batch:=Batch)) :
  (schedule nr k l).1
  = prod_map id (λ c, take (Z.to_nat nr) (drop (k * Z.to_nat nr) c))
      <$> partition l ∧
  cursors (schedule nr k l).2
  = prod_map id (drop (S k * Z.to_nat nr)) <$> partition l.
Proof.
  induction k as [|k [_ IH]]; cbn [schedule].
  - unfold get_next_batches, nextBatches. cbn [fst snd cursors iter].
    split; apply list_fmap_ext; intros ? [w c]; cbn; [done|].
    by rewrite Nat.add_0_r.
  - unfold get_next_batches at 1 2, nextBatches. cbn [fst snd cursors].
    rewrite IH, <- !list_fmap_compose.
    split; apply list_fmap_ext; intros ? [w c]; unfold prod_map;
      cbn [compose fst snd id]; [done|].
    rewrite drop_drop. intros _. do 2 f_equal. lia.
Qed.

Lemma rounds_unsnoc device lr nr k : ∀ st st2,
  rounds (S k) device lr nr st = Some st2 →
  ∃ st1, rounds k device lr nr st = Some st1 ∧
         round device lr nr st1 = Continue st2.
Proof.
  induction k as [|k IH]; intros st st2 Hr.
  - cbn [rounds] in *.
    destruct (round device lr nr st) as [st'| |] eqn:E; try done.
    exists st. by simplify_eq.
  - change (rounds (S (S k)) device lr nr st)
      with (match round device lr nr st with
            | Continue st' => rounds (S k) device lr nr st'
            | _ => None
            end) in Hr.
    destruct (round device lr nr st) as [st'| |] eqn:E; try done.
    destruct (IH _ _ Hr) as (st1 & H1 & H2).
    exists st1. split; [|done]. cbn [rounds]. by rewrite E.
Qed.

Lemma rounds_schedule device lr nr m
    (l : FederatedDataLoader (Batch:=Batch)) k : ∀ st,
  rounds k device lr nr (train_init m l nr) = Some st →
  batches st = (schedule nr k l).1 ∧ loader st = (schedule nr k l).2.
Proof.
  induction k as [|k IH]; intros st Hr.
  - cbn [rounds] in Hr. by simplify_eq.
  - apply rounds_unsnoc in Hr as (st1 & H1 & H2).
    destruct (IH _ H1) as [_ Hl].
    apply round_Continue_inv in H2 as (_ & _ & _ & Hbs & Hld & _).
    cbn [schedule]. by rewrite Hbs, Hld, Hl.
Qed.

Lemma round_continues device lr nr st :
  signature_preserving → batches st ≠ [] → term_inv st →
  Forall (λ wp, signature wp.2 = signature (model st)) (models st) →
  all_have_data (batches st) →
  ∃ st', round device lr nr st = Continue st' ∧
         batches st' ≠ [] ∧ term_inv st' ∧
         Forall (λ wp, signature wp.2 = signature (model st')) (models st').
Proof.
  intros Hsp Hne Hinv Hsig Hall.
  pose proof (round_full device lr nr st Hall) as Hr. cbn zeta in Hr.
  pose proof (round_train_models_sig device lr nr st Hsp Hsig) as Hsig1.
  pose proof (round_train_models_not_nil device lr nr st Hne Hall) as Hnn.
  destruct (federatedAverage_ok _ _ Hnn Hsig1) as (out & Hout & Hso).
  rewrite Hout in Hr. eexists. split; [exact Hr|].
  destruct (round_Continue_progress _ _ _ _ _ Hinv Hr) as [Hinv' _].
  split_and!; [|done|].
  - cbn [batches].
    destruct (round_train_frame device lr nr st) as (_ & _ & _ & Hl & _).
    rewrite Hl. destruct Hinv as [Hlen _].
    destruct (get_next_batches_keys (loader st) nr) as [H1 _].
    apply (f_equal length) in H1. rewrite !length_fmap in H1.
    intros Hnil. rewrite Hnil in H1.
    destruct (batches st); [done|]. simpl in *. lia.
  - cbn [model models]. by rewrite Hso.
Qed.

(** As long as every assignment of the schedule is non-empty the rounds
    go on. *)
Lemma rounds_exist device lr nr m
    (l : FederatedDataLoader (Batch:=Batch)) k :
  signature_preserving → partition l ≠ [] →
  (∀ i, (i < k)%nat → all_have_data (schedule nr i l).1) →
  ∃ st, rounds (Metrics:=Metrics) k device lr nr (train_init m l nr)
          = Some st ∧
        batches st ≠ [] ∧ term_inv st ∧
        Forall (λ wp, signature wp.2 = signature (model st)) (models st).
Proof.
  intros Hsp Hne. induction k as [|k IH]; intros Hsched.
  - exists (train_init m l nr). split; [done|].
    destruct (term_inv_init m l nr) as [Hinv _].
    split_and!; [|done|constructor].
    unfold train_init. cbn [batches].
    destruct (get_next_batches_keys (iter l) nr) as [H1 _].
    intros Hnil. rewrite Hnil in H1. cbn [iter cursors] in H1.
    by destruct (partition l).
  - destruct IH as (st & Hr & Hb & Hinv & Hsig).
    { intros i Hi. apply Hsched. lia. }
    destruct (rounds_schedule _ _ _ _ _ _ _ Hr) as [Hbs _].
    destruct (round_continues device lr nr st Hsp Hb Hinv Hsig)
      as (st' & Hst' & ?).
    { rewrite Hbs. apply Hsched. lia. }
    exists st'. split; [|done]. by eapply rounds_snoc.
Qed.

Lemma train_loop_rounds device lr nr k : ∀ st st' fuel,
  rounds k device lr nr st = Some st' →
  train_loop (k + fuel) device lr nr st = train_loop fuel device lr nr st'.
Proof.
  induction k as [|k IH]; intros st st' fuel Hr; cbn [rounds] in Hr.
  - by simplify_eq.
  - destruct (round device lr nr st) as [st1| |] eqn:E; try done.
    cbn [Nat.add train_loop]. rewrite E. by apply IH.
Qed.

Lemma filter_dispatches f m bs :
  (∀ w b m', f (EvDispatch (Metrics:=Metrics) w b m') = false) →
  List.filter f (dispatches m bs) = [].
Proof.
  intros Hf. unfold dispatches.
  induction (List.filter has_data bs) as [|wb l IH]; [done|].
  rewrite fmap_cons. cbn [List.filter]. by rewrite Hf.
Qed.

(** Every round that goes on shows one round banner and one aggregation. *)
Lemma rounds_counts device lr nr k : ∀ st st',
  rounds k device lr nr st = Some st' →
  length (List.filter is_aggregate (trace st'))
    = (length (List.filter is_aggregate (trace st)) + k)%nat ∧
  length (List.filter is_round_start (trace st'))
    = (length (List.filter is_round_start (trace st)) + k)%nat.
Proof.
  induction k as [|k IH]; intros st st' Hr; cbn [rounds] in Hr.
  - simplify_eq. lia.
  - destruct (round device lr nr st) as [st1| |] eqn:E; try done.
    destruct (IH _ _ Hr) as [-> ->].
    apply round_Continue_inv in E as (_ & _ & _ & _ & _ & _ & ->).
    rewrite !List.filter_app. cbn [List.filter is_aggregate is_round_start].
    rewrite !List.filter_app, !filter_dispatches by done.
    rewrite !length_app. cbn. lia.
Qed.

Lemma has_data_length w (b : list Batch) :
  (0 < length b)%nat → has_data (w, b) = true.
Proof. destruct b; simpl; [lia|done]. Qed.

End RoundFacts.

(** ** The epoch loop *)

Section DriverFacts.
Context {Batch TestLoader Metrics : Type}.
Context {C : Collaborators Batch TestLoader Metrics}.
Implicit Types (st : DriverState (Batch:=Batch) (Metrics:=Metrics)).
Implicit Types (tss : list (TrainState (Batch:=Batch) (Metrics:=Metrics))).

Lemma filter_round_events (tr : list (Event (Batch:=Batch) (Metrics:=Metrics))) :
  Forall round_event tr →
  List.filter is_epoch_start tr = [] ∧ List.filter is_test tr = [].
Proof.
  induction 1 as [|ev tr [H1 H2] _ [IH1 IH2]]; [done|].
  simpl. by rewrite H1, H2.
Qed.

(** Each epoch contributes one banner and one evaluation to the trace. *)
Lemma epoch_traces_counts args device (tl : TestLoader) tss : ∀ epoch,
  Forall (λ ts, Forall round_event (trace ts)) tss →
  length (List.filter is_epoch_start
            (epoch_traces args device tl epoch tss)) = length tss ∧
  length (List.filter is_test
            (epoch_traces args device tl epoch tss)) = length tss.
Proof.
  induction tss as [|ts tss IH]; intros epoch Hall; [done|].
  apply Forall_cons in Hall as [Hts Hall].
  destruct (IH (epoch + 1) Hall) as [IH1 IH2].
  destruct (filter_round_events _ Hts) as [F1 F2].
  cbn [epoch_traces List.filter is_epoch_start is_test].
  rewrite !List.filter_app. cbn [List.filter is_epoch_start is_test].
  rewrite F1, F2. cbn [app length]. by rewrite IH1, IH2.
Qed.

Lemma epoch_loop_finishes args device (tl : TestLoader) n : ∀ epoch st,
  signature_preserving → partition (d_loader st) ≠ [] →
  ∃ fin tss,
    epoch_loop args device tl (seqZ epoch (Z.of_nat n)) st = Finished fin ∧
    length tss = n ∧
    epoch_chain args device (d_model st) (d_loader st) tss ∧
    Forall (λ ts, Forall round_event (trace ts) ∧
                  last (trace ts) = Some EvStop) tss ∧
    d_trace fin = d_trace st ++ epoch_traces args device tl epoch tss ∧
    d_model fin = default (d_model st) (model <$> last tss).
Proof.
  intros epoch st Hsp. revert epoch st.
  induction n as [|n IH]; intros epoch st Hne.
  - exists st, []. cbn. rewrite app_nil_r. done.
  - rewrite seqZ_cons by lia. cbn [epoch_loop].
    destruct (train_returns (d_model st) device (d_loader st) (lr args)
                (federate_after_n_batches args) Hsp Hne)
      as (ts & Hts & _ & Hp & Hev & Hlast).
    rewrite Hts.
    replace (Z.pred (Z.of_nat (S n))) with (Z.of_nat n) by lia.
    match goal with |- context [epoch_loop _ _ _ _ ?s] =>
      destruct (IH (Z.succ epoch) s) as (fin & tss & Hrun & Hlen & Hch
                                         & Hall & Htr & Hm)
    end.
    { cbn [d_loader]. by rewrite Hp. }
    exists fin, (ts :: tss). rewrite Hrun. cbn [d_model d_loader d_trace] in *.
    split_and!; [done|by rewrite <- Hlen|done|by constructor| |].
    + rewrite Htr. cbn [epoch_traces].
      replace (epoch + 1) with (Z.succ epoch) by lia.
      rewrite <- !app_assoc. cbn [app]. by rewrite <- ?app_assoc.
    + rewrite Hm. destruct tss as [|ts' tss']; [done|].
      rewrite last_cons_cons, (last_cons ts' tss').
      by destruct (last tss').
Qed.

(** C6: with at least one worker and signature-preserving local
    training, a run with [epochs >= 0] finishes after exactly [epochs]
    epochs; every epoch ends on the exhaustion signal of [train] and is
    followed by exactly one evaluation, of the model that epoch's
    [train] returned. *)
Theorem run_performs_epochs args device m
    (l : FederatedDataLoader (Batch:=Batch)) (tl : TestLoader) :
  0 ≤ epochs args →
  signature_preserving → partition l ≠ [] →
  ∃ fin tss,
    run args device m l tl = Finished fin ∧
    Z.of_nat (length tss) = epochs args ∧
    epoch_chain args device m l tss ∧
    Forall (λ ts, Forall round_event (trace ts) ∧
                  last (trace ts) = Some EvStop) tss ∧
    d_trace fin = epoch_traces args device tl 1 tss ∧
    d_model fin = default m (model <$> last tss) ∧
    Z.of_nat (length (List.filter is_epoch_start (d_trace fin)))
      = epochs args ∧
    Z.of_nat (length (List.filter is_test (d_trace fin))) = epochs args.
Proof.
  intros Hnn Hsp Hne. unfold run.
  replace (seqZ 1 (epochs args))
    with (seqZ 1 (Z.of_nat (Z.to_nat (epochs args))))
    by (by rewrite Z2Nat.id).
  destruct (epoch_loop_finishes args device tl (Z.to_nat (epochs args)) 1
              (mkDriverState m l []) Hsp Hne)
    as (fin & tss & Hrun & Hlen & Hch & Hall & Htr & Hm).
  exists fin, tss. cbn [d_model d_loader d_trace app] in *.
  destruct (epoch_traces_counts args device tl tss 1) as [N1 N2].
  { eapply Forall_impl; [exact Hall|]. by intros ts [? _]. }
  rewrite Htr, N1, N2, Hlen.
  split_and!; try done; lia.
Qed.

End DriverFacts.

(** ** The lockstep scenario *)

Section Scenario.
Context {Batch TestLoader Metrics : Type}.
Context {C : Collaborators Batch TestLoader Metrics}.

(** C9: three workers with 400, 400 and 325 batches, 50 batches per
    round.  Round 7 hands charlie the 25 batches it has left; in round 8
    charlie's assignment is empty while alice and bob are assigned 50
    batches each; [train] stops in round 8, after eight round banners and
    seven aggregations, and returns the model round 8 began with. *)
Theorem lockstep_400_400_325 device lr m0 (pa pb pc : list Batch)
    (cs : list (WorkerId * list Batch)) :
  signature_preserving →
  length pa = 400%nat → length pb = 400%nat → length pc = 325%nat →
  let l := {| partition := [("alice", pa); ("bob", pb); ("charlie", pc)];
              cursors := cs |} in
  ∃ st7 st8 ts,
    rounds (Metrics:=Metrics) 6 device lr 50 (train_init m0 l 50)
      = Some st7 ∧
    batches st7 = [("alice", take 50 (drop 300 pa));
                   ("bob", take 50 (drop 300 pb));
                   ("charlie", drop 300 pc)] ∧
    length <$> (batches st7).*2 = [50; 50; 25]%nat ∧
    rounds 7 device lr 50 (train_init m0 l 50) = Some st8 ∧
    batches st8 = [("alice", drop 350 pa); ("bob", drop 350 pb);
                   ("charlie", [])] ∧
    length <$> (batches st8).*2 = [50; 50; 0]%nat ∧
    round device lr 50 st8 = Break ts ∧
    train m0 device l lr 50 = Returned ts ∧
    model ts = model st8 ∧
    length (List.filter is_round_start (trace ts)) = 8%nat ∧
    length (List.filter is_aggregate (trace ts)) = 7%nat.
Proof.
  intros Hsp Ha Hb Hc l.
  assert (Hsched : ∀ k, (schedule 50 k l).1
    = [("alice", take 50 (drop (k * 50) pa));
       ("bob", take 50 (drop (k * 50) pb));
       ("charlie", take 50 (drop (k * 50) pc))]).
  { intros k. by destruct (schedule_closed_form 50 k l) as [-> _]. }
  assert (Hfull : ∀ i, (i < 7)%nat → all_have_data (schedule 50 i l).1).
  { intros i Hi. rewrite Hsched. unfold all_have_data. cbn [forallb].
    rewrite !has_data_length; [done|..];
      rewrite length_take, length_drop; lia. }
  assert (Hne : partition l ≠ []) by done.
  destruct (rounds_exist device lr 50 m0 l 7 Hsp Hne Hfull)
    as (st8 & Hr8 & _).
  destruct (rounds_unsnoc _ _ _ _ _ _ Hr8) as (st7 & Hr7 & Hstep).
  destruct (rounds_schedule _ _ _ _ _ _ _ Hr7) as [Hb7 _].
  destruct (rounds_schedule _ _ _ _ _ _ _ Hr8) as [Hb8 _].
  rewrite Hsched in Hb7, Hb8.
  change (6 * 50)%nat with 300%nat in Hb7.
  change (7 * 50)%nat with 350%nat in Hb8.
  rewrite (take_ge (drop 300 pc)) in Hb7 by (rewrite length_drop; lia).
  rewrite (take_ge (drop 350 pa)), (take_ge (drop 350 pb)),
    (drop_ge pc 350) in Hb8 by (rewrite ?length_drop; lia).
  rewrite take_nil in Hb8.
  assert (Hex : exhausted (batches st8)).
  { exists "charlie". rewrite Hb8. right. right. left. }
  assert (Hfuel : ∃ f, S (total_batches (partition l)) = (7 + S f)%nat).
  { exists (total_batches (partition l) - 7)%nat.
    assert (7 ≤ total_batches (partition l))%nat; [|lia].
    unfold total_batches.
    cbn [partition l fmap list_fmap compose snd sum_list sum_list_with].
    unfold id. lia. }
  destruct Hfuel as [f Hfuel].
  destruct (exhausted_round_breaks device lr 50 st8 f Hex)
    as (ts & Hbreak & Hloop & Hm & Htr).
  exists st7, st8, ts. split_and!; try done.
  - rewrite Hb7. cbn. rewrite !length_take, !length_drop, Ha, Hb, Hc. done.
  - rewrite Hb8. cbn. rewrite !length_drop, Ha, Hb. done.
  - unfold train.
    rewrite Hfuel, (train_loop_rounds _ _ _ _ _ _ (S f) Hr8).
    exact Hloop.
  - destruct (rounds_counts _ _ _ _ _ _ Hr8) as [_ Hn].
    rewrite Htr, round_events_exhausted, List.filter_app by done.
    cbn [List.filter is_round_start].
    rewrite List.filter_app, filter_dispatches by done.
    rewrite length_app, Hn. done.
  - destruct (rounds_counts _ _ _ _ _ _ Hr8) as [Hn _].
    rewrite Htr, round_events_exhausted, List.filter_app by done.
    cbn [List.filter is_aggregate].
    rewrite List.filter_app, filter_dispatches by done.
    rewrite length_app, Hn. done.
Qed.

End Scenario.

Lemma demo_signature_preserving :
  signature_preserving (C:=demo_collaborators).
Proof.
  intros w bs m device lr. cbn [train_on_batches demo_collaborators fst].
  unfold signature. by rewrite <- map_fmap_compose.
Qed.

Lemma demo_distinct_workers : distinct_workers demo_loader.
Proof.
  unfold distinct_workers. cbn.
  apply NoDup_cons. split; [|apply NoDup_singleton].
  intros Hin. by apply list_elem_of_singleton in Hin.
Qed.

Lemma full_round_aggregates_and_counts_witness :
  counter (train_init (Metrics:=nat) demo_model demo_loader 1)
    = Z.of_nat 0 * 1 ∧
  ∀ m, all_have_data (batches (train_init (Metrics:=nat) demo_model demo_loader 1)) →
    federatedAverage
      (round_results (C:=demo_collaborators) cpu demo_lr
         (model (train_init (Metrics:=nat) demo_model demo_loader 1))
         (batches (train_init (Metrics:=nat) demo_model demo_loader 1)))
      = Ok m →
    ∃ st',
      round (C:=demo_collaborators) cpu demo_lr 1
        (train_init demo_model demo_loader 1) = Continue st' ∧
      rounds (C:=demo_collaborators) 1 cpu demo_lr 1
        (train_init demo_model demo_loader 1) = Some st' ∧
      model st' = m ∧
      counter st' = counter (train_init (Metrics:=nat) demo_model demo_loader 1) + 1 ∧
      counter st' = Z.of_nat 1 * 1 ∧
      batches st'
        = (get_next_batches
             (loader (train_init (Metrics:=nat) demo_model demo_loader 1)) 1).1 ∧
      round_events (C:=demo_collaborators) cpu demo_lr 1
        (train_init demo_model demo_loader 1)
      = EvRoundStart 0 (0 + 1)
          :: dispatches demo_model
               (batches (train_init (Metrics:=nat) demo_model demo_loader 1))
          ++ [EvAggregate
                (round_results (C:=demo_collaborators) cpu demo_lr demo_model
                   (batches (train_init (Metrics:=nat) demo_model demo_loader 1)));
              EvFetch 1].
Proof.
  apply (full_round_aggregates_and_counts (C:=demo_collaborators)
           cpu demo_lr 1 demo_model demo_loader 0
           (train_init demo_model demo_loader 1)).
  - exact demo_distinct_workers.
  - reflexivity.
Defined.

Lemma run_performs_epochs_witness :
  ∃ fin tss,
    run (C:=demo_collaborators) demo_args cpu demo_model demo_loader tt
      = Finished fin ∧
    Z.of_nat (length tss) = 2 ∧
    epoch_chain (C:=demo_collaborators) demo_args cpu demo_model demo_loader
      tss ∧
    Forall (λ ts, Forall round_event (trace ts) ∧
                  last (trace ts) = Some EvStop) tss ∧
    d_trace fin = epoch_traces (C:=demo_collaborators) demo_args cpu tt 1 tss ∧
    d_model fin = default demo_model (model <$> last tss) ∧
    Z.of_nat (length (List.filter is_epoch_start (d_trace fin))) = 2 ∧
    Z.of_nat (length (List.filter is_test (d_trace fin))) = 2.
Proof.
  apply (run_performs_epochs (C:=demo_collaborators)
           demo_args cpu demo_model demo_loader tt).
  - cbn. lia.
  - exact demo_signature_preserving.
  - done.
Defined.

Lemma lockstep_400_400_325_witness :
  ∃ st7 st8 ts,
    rounds (C:=demo_collaborators) (Metrics:=nat) 6 cpu demo_lr 50
      (train_init demo_model lockstep_loader 50) = Some st7 ∧
    batches st7 = [("alice", take 50 (drop 300 (seq 0 400)));
                   ("bob", take 50 (drop 300 (seq 0 400)));
                   ("charlie", drop 300 (seq 0 325))] ∧
    length <$> (batches st7).*2 = [50; 50; 25]%nat ∧
    rounds (C:=demo_collaborators) 7 cpu demo_lr 50
      (train_init demo_model lockstep_loader 50) = Some st8 ∧
    batches st8 = [("alice", drop 350 (seq 0 400));
                   ("bob", drop 350 (seq 0 400)); ("charlie", [])] ∧
    length <$> (batches st8).*2 = [50; 50; 0]%nat ∧
    round (C:=demo_collaborators) cpu demo_lr 50 st8 = Break ts ∧
    train (C:=demo_collaborators) demo_model cpu lockstep_loader demo_lr 50
      = Returned ts ∧
    model ts = model st8 ∧
    length (List.filter is_round_start (trace ts)) = 8%nat ∧
    length (List.filter is_aggregate (trace ts)) = 7%nat.
Proof.
  apply (lockstep_400_400_325 (C:=demo_collaborators) cpu demo_lr demo_model
           (seq 0 400) (seq 0 400) (seq 0 325) []).
  - exact demo_signature_preserving.
  - apply length_seq.
  - apply length_seq.
  - apply length_seq.
Defined.

(** The driver on [demo_loader]: two epochs, each of two round banners,
    one aggregation and one evaluation. *)
Example demo_run_trace_shape :
  match run (C:=demo_collaborators) demo_args cpu demo_model demo_loader tt with
  | Finished fin =>
      Some ((λ ev, match ev with
                   | EvEpochStart e _ => ("epoch", e)
                   | EvRoundStart lo _ => ("round", lo)
                   | EvDispatch _ _ _ => ("dispatch", 0)
                   | EvStop => ("stop", 0)
                   | EvAggregate ms => ("aggregate", Z.of_nat (length ms))
                   | EvFetch n => ("fetch", n)
                   | EvTest _ _ => ("test", 0)
                   end) <$> d_trace fin)
  | _ => None
  end
  = Some [("epoch", 1); ("fetch", 1);
          ("round", 0); ("dispatch", 0); ("dispatch", 0);
          ("aggregate", 2); ("fetch", 1);
          ("round", 1); ("dispatch", 0); ("stop", 0); ("test", 0);
          ("epoch", 2); ("fetch", 1);
          ("round", 0); ("dispatch", 0); ("dispatch", 0);
          ("aggregate", 2); ("fetch", 1);
          ("round", 1); ("dispatch", 0); ("stop", 0); ("test", 0)].
Proof. vm_compute. reflexivity. Qed.

(** A worker side that returns ragged shapes makes the aggregation raise
    [ShapeMismatch]; the model in the state at the raise is the one the
    round began with. *)
Example ragged_run_raises :
  match train (C:=ragged_collaborators) (Metrics:=nat)
          demo_model cpu demo_loader demo_lr 2 with
  | Raised e st => Some (e, bool_decide (model st = demo_model))
  | _ => None
  end = Some (ShapeMismatch, true).
Proof. vm_compute. reflexivity. Qed.

(** ** Rounds that end the epoch *)

(** C2 (as stated): an exhausted round that dispatches no local training
    to any worker is not what the loop does: in [demo_round2] bob's
    assignment is empty and alice is still trained. *)
Lemma exhausted_round_still_dispatches :
  ¬ exhausted_round_dispatches_nothing (C:=demo_collaborators).
Proof.
  intros H.
  specialize (H cpu demo_lr 1 demo_round2).
  assert (Hex : exhausted (batches demo_round2)).
  { exists "bob". cbn [batches demo_round2]. right. left. }
  pose proof (H Hex) as Hno.
  rewrite round_events_exhausted in Hno by done.
  apply Forall_cons in Hno as [_ Hno].
  cbn in Hno. apply Forall_cons in Hno as [Hno _]. done.
Qed.

Example demo_round2_reached :
  batches <$> rounds (C:=demo_collaborators) (Metrics:=nat) 1 cpu demo_lr 1
                (train_init demo_model demo_loader 1)
  = Some (batches demo_round2).
Proof. vm_compute. reflexivity. Qed.

Lemma exhausted_round_dispatches_workers_with_data_witness :
  (∃ st', round (C:=demo_collaborators) cpu demo_lr 1 demo_round2 = Break st') ∧
  last (round_events (C:=demo_collaborators) cpu demo_lr 1 demo_round2)
    = Some EvStop ∧
  (∀ ev, ev ∈ round_events (C:=demo_collaborators) cpu demo_lr 1 demo_round2 →
         is_aggregate ev = false ∧ is_fetch ev = false) ∧
  (∀ w b m,
     EvDispatch w b m
       ∈ round_events (C:=demo_collaborators) cpu demo_lr 1 demo_round2
     ↔ m = model demo_round2 ∧ (w, b) ∈ batches demo_round2 ∧ b ≠ []).
Proof.
  apply (exhausted_round_dispatches_workers_with_data
           (C:=demo_collaborators) cpu demo_lr 1 demo_round2).
  exists "bob". cbn [batches demo_round2]. right. left.
Defined.

Lemma exhaustion_keeps_global_model_witness :
  ∃ st',
    round (C:=demo_collaborators) cpu demo_lr 1 demo_round2 = Break st' ∧
    train_loop (C:=demo_collaborators) 1 cpu demo_lr 1 demo_round2
      = Returned st' ∧
    model st' = model demo_round2 ∧
    trace st' = trace demo_round2
      ++ round_events (C:=demo_collaborators) cpu demo_lr 1 demo_round2 ∧
    ∀ ev, ev ∈ round_events (C:=demo_collaborators) cpu demo_lr 1 demo_round2 →
          is_aggregate ev = false.
Proof.
  apply (exhaustion_keeps_global_model
           (C:=demo_collaborators) cpu demo_lr 1 demo_round2 0).
  exists "bob". cbn [batches demo_round2]. right. left.
Defined.

(** C10: in the round that signals exhaustion every worker with a
    non-empty assignment is trained, in the iteration order of [batches],
    before the loop stops; the model the loop returns is the one the round
    began with, whatever that training produced. *)
Theorem final_round_trains_then_discards {Batch TestLoader Metrics : Type}
    (C1 C2 : Collaborators Batch TestLoader Metrics)
    device lr nr fuel
    (st : TrainState (Batch:=Batch) (Metrics:=Metrics)) :
  exhausted (batches st) →
  round_events (C:=C1) device lr nr st
  = EvRoundStart (counter st) (counter st + nr)
      :: ((λ wb, EvDispatch wb.1 wb.2 (model st))
            <$> List.filter has_data (batches st))
      ++ [EvStop] ∧
  ∃ r1 r2,
    train_loop (C:=C1) (S fuel) device lr nr st = Returned r1 ∧
    train_loop (C:=C2) (S fuel) device lr nr st = Returned r2 ∧
    model r1 = model st ∧ model r2 = model st.
Proof.
  intros Hex. split; [by apply round_events_exhausted|].
  destruct (exhausted_round_breaks (C:=C1) device lr nr st fuel Hex)
    as (r1 & _ & H1 & M1 & _).
  destruct (exhausted_round_breaks (C:=C2) device lr nr st fuel Hex)
    as (r2 & _ & H2 & M2 & _).
  by exists r1, r2.
Qed.

Lemma final_round_trains_then_discards_witness :
  round_events (C:=demo_collaborators) cpu demo_lr 1 demo_round2
  = [EvRoundStart 1 2; EvDispatch "alice" [1%nat] (model demo_round2); EvStop]
  ∧ ∃ r1 r2,
    train_loop (C:=demo_collaborators) 1 cpu demo_lr 1 demo_round2
      = Returned r1 ∧
    train_loop (C:=ragged_collaborators) 1 cpu demo_lr 1 demo_round2
      = Returned r2 ∧
    model r1 = model demo_round2 ∧ model r2 = model demo_round2.
Proof.
  apply (final_round_trains_then_discards
           demo_collaborators ragged_collaborators cpu demo_lr 1 0 demo_round2).
  exists "bob". cbn [batches demo_round2]. right. left.
Defined.

(** ** How [train] ends *)

Section LoopFacts.
Context {Batch TestLoader Metrics : Type}.
Context {C : Collaborators Batch TestLoader Metrics}.
Implicit Types (st : TrainState (Batch:=Batch) (Metrics:=Metrics)).
Implicit Types (bs : list (WorkerId * list Batch)).
Implicit Types (ev : Event (Batch:=Batch) (Metrics:=Metrics)).

#[local] Arguments round_train : simpl never.
#[local] Arguments round : simpl never.

Lemma round_Break_exhausted device lr nr st st' :
  round device lr nr st = Break st' →
  exhausted (batches st) ∧ counter st' = counter st + nr.
Proof.
  intros Hr.
  destruct (forallb has_data (batches st)) eqn:Hall.
  - rewrite (round_full device lr nr st Hall) in Hr. cbn zeta in Hr.
    by destruct (federatedAverage _).
  - apply forallb_has_data_exhausted in Hall. split; [done|].
    rewrite (round_exhausted _ _ _ _ Hall) in Hr. injection Hr as <-.
    destruct (round_train_frame device lr nr st) as (_ & _ & Hc & _).
    cbn [log counter]. done.
Qed.

Lemma round_Raise_inv device lr nr st e st' :
  round device lr nr st = Raise e st' →
  all_have_data (batches st) ∧
  federatedAverage (models st') = Err e ∧
  model st' = model st ∧
  counter st' = counter st + nr ∧
  loader st' = loader st ∧
  trace st' = trace st
    ++ EvRoundStart (counter st) (counter st + nr)
       :: dispatches (model st) (batches st)
    ++ [EvAggregate (models st')].
Proof.
  intros Hr.
  assert (Hall : all_have_data (batches st)).
  { unfold all_have_data.
    destruct (forallb has_data (batches st)) eqn:E; [done|].
    apply forallb_has_data_exhausted in E.
    by rewrite (round_exhausted _ _ _ _ E) in Hr. }
  split; [done|].
  rewrite (round_full _ _ _ _ Hall) in Hr. cbn zeta in Hr.
  destruct (round_train_frame device lr nr st)
    as (Hm & _ & Hc & Hl & _ & Ht).
  revert Hr Hm Hc Hl Ht.
  generalize (round_train device lr nr st). intros st1 Hr Hm Hc Hl Ht.
  destruct (federatedAverage (models st1)) as [m|e'] eqn:Havg; [done|].
  injection Hr as <- <-. cbn [log model models counter loader trace].
  rewrite Hm, Hc, Hl, Ht, <- app_assoc. done.
Qed.

(** A call of the loop that ends went through some number of rounds that
    went on, then one round that took the [break] or raised. *)
Lemma train_loop_inv device lr nr fuel : ∀ st,
  match train_loop fuel device lr nr st with
  | Returned ts => ∃ k stk, rounds k device lr nr st = Some stk ∧
                            round device lr nr stk = Break ts
  | Raised e ts => ∃ k stk, rounds k device lr nr st = Some stk ∧
                            round device lr nr stk = Raise e ts
  | OutOfFuel => True
  end.
Proof.
  induction fuel as [|fuel IH]; intros st; [done|].
  cbn [train_loop].
  destruct (round device lr nr st) as [st1|st1|e st1] eqn:E.
  - specialize (IH st1).
    destruct (train_loop fuel device lr nr st1) as [ts|e ts|]; [| |done];
      destruct IH as (k & stk & Hk & Hr); exists (S k), stk;
      (split; [cbn [rounds]; by rewrite E|done]).
  - by exists 0%nat, st.
  - by exists 0%nat, st.
Qed.

Lemma banners_app (tr1 tr2 : list (Event (Batch:=Batch) (Metrics:=Metrics))) :
  banners (tr1 ++ tr2) = banners tr1 ++ banners tr2.
Proof. apply omap_app. Qed.

Lemma banners_dispatches m bs : banners (dispatches (Metrics:=Metrics) m bs) = [].
Proof.
  unfold dispatches. induction (List.filter has_data bs) as [|wb l IH]; done.
Qed.

(** The events of [k] rounds that went on. *)
Lemma rounds_trace device lr nr k : ∀ st st',
  rounds k device lr nr st = Some st' →
  ∃ evs, trace st' = trace st ++ evs ∧
         Forall round_event evs ∧
         banners evs
         = (λ i : nat, (counter st + Z.of_nat i * nr,
                        counter st + (Z.of_nat i + 1) * nr)) <$> seq 0 k.
Proof.
  induction k as [|k IH]; intros st st' Hr; cbn [rounds] in Hr.
  - simplify_eq. exists []. by rewrite app_nil_r.
  - destruct (round device lr nr st) as [st1| |] eqn:E; try done.
    destruct (IH _ _ Hr) as (evs & Ht & Hev & Hb).
    apply round_Continue_inv in E as (_ & _ & _ & _ & _ & Hc & Ht1).
    eexists. split; [rewrite Ht, Ht1, <- app_assoc; reflexivity|]. split.
    + apply Forall_app. split; [|done]. constructor; [done|].
      apply Forall_app. split; [apply Forall_round_event_dispatches|].
      by repeat constructor.
    + rewrite banners_app.
      change (banners (EvRoundStart ?lo ?hi :: ?tr))
        with ((lo, hi) :: banners tr).
      rewrite banners_app, banners_dispatches, Hb.
      change (banners [EvAggregate _; EvFetch nr]) with (@nil (Z * Z)).
      cbn [app seq]. rewrite fmap_cons, <- fmap_S_seq, <- list_fmap_compose.
      f_equal; [f_equal; lia|].
      apply list_fmap_ext. intros i j _. cbn [compose]. rewrite Hc.
      f_equal; lia.
Qed.

Lemma rounds_prefix device lr nr k : ∀ i st st',
  (i ≤ k)%nat → rounds k device lr nr st = Some st' →
  ∃ sti, rounds i device lr nr st = Some sti.
Proof.
  induction k as [|k IH]; intros i st st' Hi Hr.
  - assert (i = 0%nat) as -> by lia. eauto.
  - destruct i as [|i]; [by exists st|].
    cbn [rounds] in *.
    destruct (round device lr nr st) as [st1| |]; try done.
    apply (IH i st1 st'); [lia|done].
Qed.

(** The rounds that went on are those of the schedule that have data for
    every worker. *)
Lemma rounds_all_have_data device lr nr m
    (l : FederatedDataLoader (Batch:=Batch)) k st :
  rounds (Metrics:=Metrics) k device lr nr (train_init m l nr) = Some st →
  ∀ i, (i < k)%nat → all_have_data (schedule nr i l).1.
Proof.
  intros Hr i Hi.
  destruct (rounds_prefix device lr nr k (S i) _ _ Hi Hr) as (st2 & H2).
  apply rounds_unsnoc in H2 as (st1 & H1 & Hstep).
  apply round_Continue_inv in Hstep as (Hall & _).
  destruct (rounds_schedule _ _ _ _ _ _ _ H1) as [<- _]. done.
Qed.

Lemma banners_init m (l : FederatedDataLoader (Batch:=Batch)) nr :
  banners (trace (Metrics:=Metrics) (train_init m l nr)) = [].
Proof. done. Qed.

(** What a return of [train] looks like. *)
Lemma train_Returned_inv m device (l : FederatedDataLoader (Batch:=Batch))
    lr nr ts :
  train (Metrics:=Metrics) m device l lr nr = Returned ts →
  ∃ k stk,
    rounds k device lr nr (train_init m l nr) = Some stk ∧
    round device lr nr stk = Break ts ∧
    (∀ i, (i < k)%nat → all_have_data (schedule nr i l).1) ∧
    exhausted (schedule nr k l).1 ∧
    model ts = model stk ∧
    counter ts = (Z.of_nat k + 1) * nr ∧
    banners (trace ts)
    = (λ i : nat, (Z.of_nat i * nr, (Z.of_nat i + 1) * nr)) <$> seq 0 (S k) ∧
    length (List.filter is_aggregate (trace ts)) = k.
Proof.
  intros Ht. unfold train in Ht.
  pose proof (train_loop_inv device lr nr
    (S (total_batches (partition l))) (train_init m l nr)) as Hinv.
  rewrite Ht in Hinv. destruct Hinv as (k & stk & Hk & Hbr).
  exists k, stk. split; [done|]. split; [done|].
  split; [by eapply rounds_all_have_data|].
  destruct (round_Break_exhausted _ _ _ _ _ Hbr) as [Hex Hc].
  destruct (round_Break_inv _ _ _ _ _ Hbr) as (Hm & _ & Htr).
  destruct (rounds_schedule _ _ _ _ _ _ _ Hk) as [Hbs _].
  pose proof (rounds_counter _ _ _ _ _ _ Hk) as Hck.
  cbn [train_init counter] in Hck.
  destruct (rounds_trace _ _ _ _ _ _ Hk) as (evs & Hevs & _ & Hb).
  destruct (rounds_counts _ _ _ _ _ _ Hk) as [Hagg _].
  split; [by rewrite <- Hbs|]. split; [done|]. split; [lia|]. split.
  - rewrite Htr, Hevs, !banners_app.
    change (banners (EvRoundStart ?lo ?hi :: ?tr))
      with ((lo, hi) :: banners tr).
    rewrite banners_app, banners_dispatches, banners_init, Hb.
    change (banners [EvStop]) with (@nil (Z * Z)).
    cbn [app train_init counter].
    rewrite seq_S, fmap_app. f_equal.
    cbn. rewrite Hck. do 2 f_equal; lia.
  - rewrite Htr, List.filter_app. cbn [List.filter is_aggregate].
    rewrite List.filter_app, filter_dispatches by done.
    rewrite length_app, Hagg. cbn. lia.
Qed.

(** What a raise of [train] looks like. *)
Lemma train_Raised_inv m device (l : FederatedDataLoader (Batch:=Batch))
    lr nr e ts :
  train (Metrics:=Metrics) m device l lr nr = Raised e ts →
  ∃ k stk,
    rounds k device lr nr (train_init m l nr) = Some stk ∧
    round device lr nr stk = Raise e ts.
Proof.
  intros Ht. unfold train in Ht.
  pose proof (train_loop_inv device lr nr
    (S (total_batches (partition l))) (train_init m l nr)) as Hinv.
  by rewrite Ht in Hinv.
Qed.

(** X1: [train] always ends, by returning or by raising. *)
Theorem train_always_ends m device (l : FederatedDataLoader (Batch:=Batch))
    lr nr :
  ∃ ts, train (Metrics:=Metrics) m device l lr nr = Returned ts ∨
        ∃ e, train (Metrics:=Metrics) m device l lr nr = Raised e ts.
Proof.
  pose proof (train_terminates m device l lr nr) as Hne.
  destruct (train m device l lr nr) as [ts|e ts|]; [| |done].
  - exists ts. by left.
  - exists ts. right. by exists e.
Qed.

(** X2: [train] returns only from a round in which some worker's
    assignment is empty, after [k] rounds in which every worker had data;
    it has then printed the banners [0, n], [n, 2n], ..., [k n, (k+1) n],
    aggregated [k] times, and its counter is [(k + 1) n]. *)
Theorem train_returns_on_first_exhaustion m device
    (l : FederatedDataLoader (Batch:=Batch)) lr nr ts :
  train (Metrics:=Metrics) m device l lr nr = Returned ts →
  ∃ k,
    (∀ i, (i < k)%nat → all_have_data (schedule nr i l).1) ∧
    exhausted (schedule nr k l).1 ∧
    counter ts = (Z.of_nat k + 1) * nr ∧
    banners (trace ts)
    = (λ i : nat, (Z.of_nat i * nr, (Z.of_nat i + 1) * nr)) <$> seq 0 (S k) ∧
    length (List.filter is_aggregate (trace ts)) = k ∧
    last (trace ts) = Some EvStop.
Proof.
  intros Ht.
  destruct (train_Returned_inv _ _ _ _ _ _ Ht)
    as (k & stk & _ & Hbr & Hfull & Hex & _ & Hc & Hb & Hagg).
  exists k. split_and!; try done.
  apply round_Break_inv in Hbr as (_ & _ & ->).
  rewrite app_comm_cons, app_assoc. apply last_snoc.
Qed.


(** X4: in every round, whatever its outcome, local training is dispatched
    exactly to the workers with a non-empty assignment, and each of them is
    given the model the round began with. *)
Theorem dispatches_use_round_model device lr nr st w b m' :
  EvDispatch w b m' ∈ round_events device lr nr st
  ↔ m' = model st ∧ (w, b) ∈ batches st ∧ b ≠ [].
Proof.
  assert (Hev : ∃ tail, round_events device lr nr st
            = EvRoundStart (counter st) (counter st + nr)
                :: dispatches (model st) (batches st) ++ tail ∧
            ∀ ev, ev ∈ tail → is_dispatch ev = false).
  { unfold round_events.
    destruct (round device lr nr st) as [st'|st'|e st'] eqn:E;
      cbn [outcome_state].
    - apply round_Continue_inv in E as (_ & _ & _ & _ & _ & _ & ->).
      rewrite drop_app_length. eexists. split; [done|].
      intros ev Hin. apply elem_of_cons in Hin as [->|Hin]; [done|].
      apply list_elem_of_singleton in Hin. by subst.
    - apply round_Break_inv in E as (_ & _ & ->).
      rewrite drop_app_length. eexists. split; [done|].
      intros ev Hin. apply list_elem_of_singleton in Hin. by subst.
    - apply round_Raise_inv in E as (_ & _ & _ & _ & _ & ->).
      rewrite drop_app_length. eexists. split; [done|].
      intros ev Hin. apply list_elem_of_singleton in Hin. by subst. }
  destruct Hev as (tail & -> & Htail).
  rewrite elem_of_cons, elem_of_app, elem_of_dispatches. split.
  - intros [Heq|[Hd|Hin]]; [done|exact Hd|].
    by apply Htail in Hin.
  - intros Hd. right. by left.
Qed.

End LoopFacts.

Lemma train_returns_on_first_exhaustion_witness :
  ∃ ts,
    train (C:=demo_collaborators) (Metrics:=nat)
      demo_model cpu demo_loader demo_lr 1 = Returned ts ∧
    ∃ k,
      (∀ i, (i < k)%nat → all_have_data (schedule 1 i demo_loader).1) ∧
      exhausted (schedule 1 k demo_loader).1 ∧
      counter ts = (Z.of_nat k + 1) * 1 ∧
      banners (trace ts)
      = (λ i : nat, (Z.of_nat i * 1, (Z.of_nat i + 1) * 1)) <$> seq 0 (S k) ∧
      length (List.filter is_aggregate (trace ts)) = k ∧
      last (trace ts) = Some EvStop.
Proof.
  destruct (train (C:=demo_collaborators) (Metrics:=nat)
              demo_model cpu demo_loader demo_lr 1) as [ts|e ts|] eqn:E.
  - exists ts. split; [reflexivity|].
    exact (train_returns_on_first_exhaustion (C:=demo_collaborators)
             demo_model cpu demo_loader demo_lr 1 ts E).
  - vm_compute in E. discriminate.
  - vm_compute in E. discriminate.
Defined.


(** ** Edge cases of [train] *)

Section EdgeFacts.
Context {Batch TestLoader Metrics : Type}.
Context {C : Collaborators Batch TestLoader Metrics}.
Implicit Types (st : TrainState (Batch:=Batch) (Metrics:=Metrics)).

#[local] Arguments round_train : simpl never.
#[local] Arguments round : simpl never.

Lemma federatedAverage_Err_empty ms :
  federatedAverage ms = Err EmptyAggregationInput → ms = [].
Proof.
  destruct ms as [|[w p] rest]; [done|].
  unfold federatedAverage. by case_decide.
Qed.

Lemma schedule_nil nr k (l : FederatedDataLoader (Batch:=Batch)) :
  (schedule nr k l).1 = [] ↔ partition l = [].
Proof.
  destruct (schedule_closed_form nr k l) as [-> _].
  split; [apply fmap_nil_inv|by intros ->].
Qed.

(** X5: [train] raises [EmptyAggregationInput] exactly when the loader has
    no workers; it then raises in its first round, having dispatched
    nothing: with no assignment to look at, the round does not count as
    exhausted and goes on to the aggregation. *)
Theorem train_without_workers m device
    (l : FederatedDataLoader (Batch:=Batch)) lr nr :
  ((∃ ts, train (Metrics:=Metrics) m device l lr nr
          = Raised EmptyAggregationInput ts) ↔ partition l = []) ∧
  (partition l = [] →
   ∃ ts, train (Metrics:=Metrics) m device l lr nr
         = Raised EmptyAggregationInput ts ∧
         model ts = m ∧
         trace ts = [EvFetch nr; EvRoundStart 0 (0 + nr); EvAggregate []]).
Proof.
  assert (Hnil : partition l = [] →
    ∃ ts, train (Metrics:=Metrics) m device l lr nr
          = Raised EmptyAggregationInput ts ∧
          model ts = m ∧
          trace ts = [EvFetch nr; EvRoundStart 0 (0 + nr); EvAggregate []]).
  { intros Hp. destruct l as [p cs]. cbn [partition] in Hp. subst p.
    eexists. split; [reflexivity|]. done. }
  split; [|done]. split.
  - intros [ts Ht].
    destruct (train_Raised_inv _ _ _ _ _ _ _ Ht) as (k & stk & Hk & Hr).
    destruct (rounds_schedule _ _ _ _ _ _ _ Hk) as [Hbs _].
    destruct (round_Raise_inv _ _ _ _ _ _ Hr) as (Hall & _).
    apply (schedule_nil nr k). rewrite <- Hbs.
    destruct (decide (batches stk = [])) as [|Hne]; [done|]. exfalso.
    rewrite (round_full _ _ _ _ Hall) in Hr. cbn zeta in Hr.
    pose proof (round_train_models_not_nil device lr nr stk Hne Hall) as Hnn.
    destruct (federatedAverage (models (round_train device lr nr stk)))
      as [out|e] eqn:Havg; [done|].
    injection Hr as -> _. by apply federatedAverage_Err_empty in Havg.
  - intros Hp. destruct (Hnil Hp) as (ts & Ht & _). by exists ts.
Qed.

Lemma no_dispatch_without_data m (p : list (WorkerId * list Batch)) :
  dispatches (Metrics:=Metrics) m (prod_map id (λ c, take 0 c) <$> p) = [].
Proof.
  unfold dispatches. induction p as [|[w c] p IH]; [done|].
  rewrite fmap_cons. by cbn [prod_map List.filter has_data fst snd take].
Qed.

(** X6: with a non-positive number of batches per round and at least one
    worker, [train] trains nothing: every assignment of its first round is
    empty, and it returns the model it was given. *)
Theorem train_nonpositive_batches m device
    (l : FederatedDataLoader (Batch:=Batch)) lr nr :
  nr ≤ 0 → partition l ≠ [] →
  ∃ ts, train (Metrics:=Metrics) m device l lr nr = Returned ts ∧
        model ts = m ∧
        counter ts = nr ∧
        trace ts = [EvFetch nr; EvRoundStart 0 (0 + nr); EvStop].
Proof.
  intros Hnr Hne.
  assert (Hbs : batches (Metrics:=Metrics) (train_init m l nr)
                = prod_map id (λ c, take 0 c) <$> partition l).
  { unfold train_init, get_next_batches, nextBatches.
    cbn [batches fst iter cursors]. by rewrite Z2Nat.nonpos. }
  assert (Hex : exhausted (batches (Metrics:=Metrics) (train_init m l nr))).
  { rewrite Hbs. destruct (partition l) as [|[w c] p]; [done|].
    exists w. rewrite fmap_cons. left. }
  unfold train.
  destruct (exhausted_round_breaks device lr nr (train_init m l nr)
              (total_batches (partition l)) Hex)
    as (ts & Hbr & Hloop & Hm & Htr).
  exists ts. split; [done|]. split; [done|].
  destruct (round_Break_exhausted _ _ _ _ _ Hbr) as [_ Hc].
  split; [cbn [train_init counter] in Hc; lia|].
  rewrite Htr, round_events_exhausted, Hbs, no_dispatch_without_data by done.
  done.
Qed.

(** X7: with at least one worker and local training that keeps names and
    shapes, [train] never raises, and the model it returns has the names
    and shapes of the model it was given; the loader keeps its
    partitions. *)
Theorem train_keeps_signature m device
    (l : FederatedDataLoader (Batch:=Batch)) lr nr :
  signature_preserving → partition l ≠ [] →
  ∃ ts, train (Metrics:=Metrics) m device l lr nr = Returned ts ∧
        signature (model ts) = signature m ∧
        partition (loader ts) = partition l.
Proof.
  intros Hsp Hne.
  destruct (train_returns m device l lr nr Hsp Hne)
    as (ts & Ht & Hs & Hp & _).
  by exists ts.
Qed.

(** X8: on entry to round [k + 1] of an epoch every worker is assigned the
    next [n] batches of its partition, after the [k n] batches of the
    rounds before and ahead of what its cursor still holds: no batch is
    assigned twice, skipped or reordered. *)
Theorem rounds_assign_consecutive_slices device lr nr m
    (l : FederatedDataLoader (Batch:=Batch)) k st j w c :
  rounds (Metrics:=Metrics) k device lr nr (train_init m l nr) = Some st →
  partition l !! j = Some (w, c) →
  batches st !! j
    = Some (w, take (Z.to_nat nr) (drop (k * Z.to_nat nr) c)) ∧
  cursors (loader st) !! j = Some (w, drop (S k * Z.to_nat nr) c) ∧
  take (k * Z.to_nat nr) c
    ++ take (Z.to_nat nr) (drop (k * Z.to_nat nr) c)
    ++ drop (S k * Z.to_nat nr) c = c.
Proof.
  intros Hk Hj.
  destruct (rounds_schedule _ _ _ _ _ _ _ Hk) as [-> ->].
  destruct (schedule_closed_form nr k l) as [-> ->].
  rewrite !list_lookup_fmap, Hj. split; [done|]. split; [done|].
  replace (S k * Z.to_nat nr)%nat with (k * Z.to_nat nr + Z.to_nat nr)%nat
    by lia.
  rewrite <- drop_drop, take_drop. apply take_drop.
Qed.

End EdgeFacts.

Lemma train_nonpositive_batches_witness :
  ∃ ts, train (C:=demo_collaborators) (Metrics:=nat)
          demo_model cpu demo_loader demo_lr 0 = Returned ts ∧
        model ts = demo_model ∧
        counter ts = 0 ∧
        trace ts = [EvFetch 0; EvRoundStart 0 (0 + 0); EvStop].
Proof.
  apply (train_nonpositive_batches (C:=demo_collaborators)
           demo_model cpu demo_loader demo_lr 0).
  - lia.
  - done.
Defined.

Lemma train_keeps_signature_witness :
  ∃ ts, train (C:=demo_collaborators) (Metrics:=nat)
          demo_model cpu demo_loader demo_lr 1 = Returned ts ∧
        signature (model ts) = signature demo_model ∧
        partition (loader ts) = partition demo_loader.
Proof.
  apply (train_keeps_signature (C:=demo_collaborators)
           demo_model cpu demo_loader demo_lr 1).
  - exact demo_signature_preserving.
  - done.
Defined.

Lemma rounds_assign_consecutive_slices_witness :
  ∃ st,
    rounds (C:=demo_collaborators) (Metrics:=nat) 1 cpu demo_lr 1
      (train_init demo_model demo_loader 1) = Some st ∧
    batches st !! 0%nat
      = Some ("alice", take (Z.to_nat 1) (drop (1 * Z.to_nat 1) [0; 1]%nat)) ∧
    cursors (loader st) !! 0%nat
      = Some ("alice", drop (2 * Z.to_nat 1) [0; 1]%nat) ∧
    take (1 * Z.to_nat 1) [0; 1]%nat
      ++ take (Z.to_nat 1) (drop (1 * Z.to_nat 1) [0; 1]%nat)
      ++ drop (2 * Z.to_nat 1) [0; 1]%nat = [0; 1]%nat.
Proof.
  destruct (rounds (C:=demo_collaborators) (Metrics:=nat) 1 cpu demo_lr 1
              (train_init demo_model demo_loader 1)) as [st|] eqn:E.
  - exists st. split; [reflexivity|].
    exact (rounds_assign_consecutive_slices (C:=demo_collaborators)
             cpu demo_lr 1 demo_model demo_loader 1 st 0 "alice" [0; 1]%nat
             E eq_refl).
  - vm_compute in E. discriminate.
Defined.

(** ** What the result of [train] does not depend on *)

Section Independence.
Context {Batch TestLoader Metrics : Type}.
Context (C1 C2 : Collaborators Batch TestLoader Metrics).
Implicit Types (st : TrainState (Batch:=Batch) (Metrics:=Metrics)).

#[local] Arguments round_train : simpl never.
#[local] Arguments round : simpl never.

Lemma erase_losses_eq st1 st2 :
  erase_losses st1 = erase_losses st2 ↔
  model st1 = model st2 ∧ models st1 = models st2 ∧
  batches st1 = batches st2 ∧ counter st1 = counter st2 ∧
  data_for_all_workers st1 = data_for_all_workers st2 ∧
  loader st1 = loader st2 ∧ trace st1 = trace st2.
Proof.
  split.
  - intros H. unfold erase_losses in H. by injection H.
  - intros (H1 & H2 & H3 & H4 & H5 & H6 & H7). unfold erase_losses.
    by rewrite H1, H2, H3, H4, H5, H6, H7.
Qed.

Lemma train_worker_erase device lr st1 st2 wb :
  same_models C1 C2 →
  erase_losses st1 = erase_losses st2 →
  erase_losses (train_worker (C:=C1) device lr st1 wb)
  = erase_losses (train_worker (C:=C2) device lr st2 wb).
Proof.
  intros Hs H. apply erase_losses_eq in H
    as (H1 & H2 & H3 & H4 & H5 & H6 & H7).
  apply erase_losses_eq. destruct wb as [w [|x b]];
    cbn [train_worker fst snd model models batches counter
         data_for_all_workers loader trace]; [done|].
  by rewrite H1, H2, H3, H4, H5, H6, H7, Hs.
Qed.

Lemma for_loop_erase device lr bs : ∀ st1 st2,
  same_models C1 C2 →
  erase_losses st1 = erase_losses st2 →
  erase_losses (foldl (train_worker (C:=C1) device lr) st1 bs)
  = erase_losses (foldl (train_worker (C:=C2) device lr) st2 bs).
Proof.
  induction bs as [|wb bs IH]; intros st1 st2 Hs H; [done|].
  cbn [foldl]. apply IH; [done|]. by apply train_worker_erase.
Qed.

Lemma round_train_erase device lr nr st1 st2 :
  same_models C1 C2 →
  erase_losses st1 = erase_losses st2 →
  erase_losses (round_train (C:=C1) device lr nr st1)
  = erase_losses (round_train (C:=C2) device lr nr st2).
Proof.
  intros Hs H. pose proof H as H'.
  apply erase_losses_eq in H' as (H1 & H2 & H3 & H4 & H5 & H6 & H7).
  unfold round_train. rewrite H3.
  match goal with
  | |- context [foldl (train_worker (C:=C1) _ _) ?a ?l] =>
      match goal with
      | |- context [foldl (train_worker (C:=C2) _ _) ?b l] =>
          assert (Hf : erase_losses (foldl (train_worker (C:=C1) device lr) a l)
                     = erase_losses (foldl (train_worker (C:=C2) device lr) b l));
          [apply for_loop_erase; [done|]; apply erase_losses_eq;
           cbn [model models batches counter data_for_all_workers loader trace];
           by rewrite H1, H2, H4, H6, H7
          |revert Hf; generalize (foldl (train_worker (C:=C1) device lr) a l);
           generalize (foldl (train_worker (C:=C2) device lr) b l)]
      end
  end.
  intros r2 r1 Hf. apply erase_losses_eq in Hf
    as (F1 & F2 & F3 & F4 & F5 & F6 & F7).
  apply erase_losses_eq.
  cbn [model models batches counter data_for_all_workers loader trace].
  by rewrite F1, F2, F3, F4, F5, F6, F7.
Qed.

Lemma round_erase device lr nr st1 st2 :
  same_models C1 C2 →
  erase_losses st1 = erase_losses st2 →
  match round (C:=C1) device lr nr st1, round (C:=C2) device lr nr st2 with
  | Continue a, Continue b => erase_losses a = erase_losses b
  | Break a, Break b => erase_losses a = erase_losses b
  | Raise e a, Raise e' b => e = e' ∧ erase_losses a = erase_losses b
  | _, _ => False
  end.
Proof.
  intros Hs H. pose proof (round_train_erase device lr nr _ _ Hs H) as Hr.
  unfold round. cbn zeta. revert Hr.
  generalize (round_train (C:=C1) device lr nr st1).
  generalize (round_train (C:=C2) device lr nr st2).
  intros r2 r1 Hr. apply erase_losses_eq in Hr
    as (F1 & F2 & F3 & F4 & F5 & F6 & F7).
  rewrite F5. destruct (negb (data_for_all_workers r2)).
  - apply erase_losses_eq.
    cbn [log model models batches counter data_for_all_workers loader trace].
    by rewrite ?F1, ?F2, ?F3, ?F4, ?F5, ?F6, ?F7.
  - cbn [log models loader counter trace data_for_all_workers loss_values].
    rewrite F2. destruct (federatedAverage (models r2)) as [out|e].
    + apply erase_losses_eq.
      cbn [log model models batches counter data_for_all_workers loader trace].
      by rewrite ?F1, ?F2, ?F3, ?F4, ?F5, ?F6, ?F7.
    + split; [done|]. apply erase_losses_eq.
      cbn [log model models batches counter data_for_all_workers loader trace].
      by rewrite ?F1, ?F2, ?F3, ?F4, ?F5, ?F6, ?F7.
Qed.

Lemma train_loop_erase device lr nr fuel : ∀ st1 st2,
  same_models C1 C2 →
  erase_losses st1 = erase_losses st2 →
  erase_result (train_loop (C:=C1) fuel device lr nr st1)
  = erase_result (train_loop (C:=C2) fuel device lr nr st2).
Proof.
  induction fuel as [|fuel IH]; intros st1 st2 Hs H; [done|].
  cbn [train_loop]. pose proof (round_erase device lr nr _ _ Hs H) as Hr.
  destruct (round (C:=C1) device lr nr st1) as [a|a|e a],
           (round (C:=C2) device lr nr st2) as [b|b|e' b]; try done.
  - by apply IH.
  - cbn [erase_result]. by rewrite Hr.
  - destruct Hr as [-> Hr]. cbn [erase_result]. by rewrite Hr.
Qed.

(** X9: the loss values local training reports are collected and never
    used: two worker sides that return the same ParameterSets give the
    same result of [train] (same outcome, model, [models], counter, loader
    and trace), whatever losses they report. *)
Theorem loss_values_are_not_used m device
    (l : FederatedDataLoader (Batch:=Batch)) lr nr :
  same_models C1 C2 →
  erase_result (train (C:=C1) (Metrics:=Metrics) m device l lr nr)
  = erase_result (train (C:=C2) (Metrics:=Metrics) m device l lr nr).
Proof. intros Hs. unfold train. by apply train_loop_erase. Qed.

(** The first round of the schedule with an empty assignment is the same
    for loaders with the same partitions. *)
Lemma first_exhaustion_unique nr
    (l1 l2 : FederatedDataLoader (Batch:=Batch)) k1 k2 :
  partition l1 = partition l2 →
  (∀ i, (i < k1)%nat → all_have_data (schedule nr i l1).1) →
  exhausted (schedule nr k1 l1).1 →
  (∀ i, (i < k2)%nat → all_have_data (schedule nr i l2).1) →
  exhausted (schedule nr k2 l2).1 →
  k1 = k2.
Proof.
  intros Hp Hf1 He1 Hf2 He2.
  assert (Hs : ∀ k, (schedule nr k l1).1 = (schedule nr k l2).1).
  { intros k. destruct (schedule_closed_form nr k l1) as [-> _].
    destruct (schedule_closed_form nr k l2) as [-> _]. by rewrite Hp. }
  destruct (Nat.lt_trichotomy k1 k2) as [Hlt|[?|Hlt]]; [|done|]; exfalso.
  - specialize (Hf2 k1 Hlt). rewrite <- Hs in Hf2.
    apply forallb_has_data_exhausted in He1.
    unfold all_have_data in Hf2. congruence.
  - specialize (Hf1 k2 Hlt). rewrite Hs in Hf1.
    apply forallb_has_data_exhausted in He2.
    unfold all_have_data in Hf1. congruence.
Qed.

(** X10: how many rounds an epoch has is fixed by the partitions and the
    number of batches per round alone: two calls of [train] over the same
    partitions that return show the same banners, the same number of
    aggregations and the same counter, whatever the models, devices,
    learning rates and worker sides. *)
Theorem rounds_fixed_by_partitions m1 m2 device1 device2
    (l1 l2 : FederatedDataLoader (Batch:=Batch)) lr1 lr2 nr ts1 ts2 :
  partition l1 = partition l2 →
  train (C:=C1) (Metrics:=Metrics) m1 device1 l1 lr1 nr = Returned ts1 →
  train (C:=C2) (Metrics:=Metrics) m2 device2 l2 lr2 nr = Returned ts2 →
  counter ts1 = counter ts2 ∧
  banners (trace ts1) = banners (trace ts2) ∧
  length (List.filter is_aggregate (trace ts1))
  = length (List.filter is_aggregate (trace ts2)).
Proof.
  intros Hp H1 H2.
  destruct (train_Returned_inv (C:=C1) _ _ _ _ _ _ H1)
    as (k1 & _ & _ & _ & Hf1 & He1 & _ & Hc1 & Hb1 & Ha1).
  destruct (train_Returned_inv (C:=C2) _ _ _ _ _ _ H2)
    as (k2 & _ & _ & _ & Hf2 & He2 & _ & Hc2 & Hb2 & Ha2).
  assert (k1 = k2) as -> by (by eapply first_exhaustion_unique).
  rewrite Hc1, Hc2, Hb1, Hb2, Ha1, Ha2. done.
Qed.

End Independence.

Lemma demo_silent_same_models :
  same_models demo_collaborators silent_collaborators.
Proof. by intros w bs m device lr. Qed.

Lemma loss_values_are_not_used_witness :
  erase_result (train (C:=demo_collaborators) (Metrics:=nat)
                  demo_model cpu demo_loader demo_lr 1)
  = erase_result (train (C:=silent_collaborators) (Metrics:=nat)
                    demo_model cpu demo_loader demo_lr 1).
Proof.
  apply (loss_values_are_not_used demo_collaborators silent_collaborators
           demo_model cpu demo_loader demo_lr 1).
  exact demo_silent_same_models.
Defined.

Lemma rounds_fixed_by_partitions_witness :
  ∃ ts1 ts2,
    train (C:=demo_collaborators) (Metrics:=nat)
      demo_model cpu demo_loader demo_lr 1 = Returned ts1 ∧
    train (C:=ragged_collaborators) (Metrics:=nat)
      alice_params cuda demo_loader 0%Q 1 = Returned ts2 ∧
    counter ts1 = counter ts2 ∧
    banners (trace ts1) = banners (trace ts2) ∧
    length (List.filter is_aggregate (trace ts1))
    = length (List.filter is_aggregate (trace ts2)).
Proof.
  destruct (train (C:=demo_collaborators) (Metrics:=nat)
              demo_model cpu demo_loader demo_lr 1) as [ts1|e ts1|] eqn:E1;
    [|vm_compute in E1; discriminate..].
  destruct (train (C:=ragged_collaborators) (Metrics:=nat)
              alice_params cuda demo_loader 0%Q 1) as [ts2|e ts2|] eqn:E2;
    [|vm_compute in E2; discriminate..].
  exists ts1, ts2. split; [reflexivity|]. split; [reflexivity|].
  exact (rounds_fixed_by_partitions demo_collaborators ragged_collaborators
           demo_model alice_params cpu cuda demo_loader demo_loader
           demo_lr 0%Q 1 ts1 ts2 eq_refl E1 E2).
Defined.

(** ** How a run ends *)

Section RunFacts.
Context {Batch TestLoader Metrics : Type}.
Context {C : Collaborators Batch TestLoader Metrics}.
Implicit Types (st : DriverState (Batch:=Batch) (Metrics:=Metrics)).
Implicit Types (tss : list (TrainState (Batch:=Batch) (Metrics:=Metrics))).

(** Whatever [train] ends with, its trace has events of the round loop
    only. *)
Lemma train_trace_round_events m device
    (l : FederatedDataLoader (Batch:=Batch)) lr nr ts :
  (train (Metrics:=Metrics) m device l lr nr = Returned ts ∨
   ∃ e, train (Metrics:=Metrics) m device l lr nr = Raised e ts) →
  Forall round_event (trace ts).
Proof.
  assert (Hpre : ∀ k stk,
    rounds k device lr nr (train_init m l nr) = Some stk →
    Forall round_event (trace (Metrics:=Metrics) stk)).
  { intros k stk Hk.
    destruct (rounds_trace _ _ _ _ _ _ Hk) as (evs & -> & Hevs & _).
    apply Forall_app. split; [|done]. by repeat constructor. }
  intros [Ht|[e Ht]].
  - destruct (train_Returned_inv _ _ _ _ _ _ Ht) as (k & stk & Hk & Hbr & _).
    apply round_Break_inv in Hbr as (_ & _ & ->).
    apply Forall_app. split; [by eapply Hpre|]. constructor; [done|].
    apply Forall_app. split; [apply Forall_round_event_dispatches|].
    by repeat constructor.
  - destruct (train_Raised_inv _ _ _ _ _ _ _ Ht) as (k & stk & Hk & Hr).
    apply round_Raise_inv in Hr as (_ & _ & _ & _ & _ & ->).
    apply Forall_app. split; [by eapply Hpre|]. constructor; [done|].
    apply Forall_app. split; [apply Forall_round_event_dispatches|].
    by repeat constructor.
Qed.

Lemma epoch_chain_round_events args device tss : ∀ m
    (l : FederatedDataLoader (Batch:=Batch)),
  epoch_chain args device m l tss →
  Forall (λ ts, Forall round_event (trace ts)) tss.
Proof.
  induction tss as [|ts tss IH]; intros m l Hch; [constructor|].
  destruct Hch as [Ht Hch]. constructor; [|by eapply IH].
  eapply train_trace_round_events. by left.
Qed.

Lemma chain_end_cons m (l : FederatedDataLoader (Batch:=Batch)) ts tss :
  chain_end m l (ts :: tss) = chain_end (model ts) (loader ts) tss.
Proof.
  unfold chain_end. rewrite last_cons. by destruct (last tss).
Qed.

Lemma seqZ_to_nat a n : seqZ a n = seqZ a (Z.of_nat (Z.to_nat n)).
Proof. unfold seqZ. by rewrite Nat2Z.id. Qed.

(** The epochs of a run: a chain of epochs whose [train] returned, each
    followed by its evaluation, then either the end of the range or an
    epoch whose [train] raised. *)
Lemma epoch_loop_outcome args device (tl : TestLoader) n : ∀ a st,
  match epoch_loop args device tl (seqZ a (Z.of_nat n)) st with
  | Finished fin =>
      ∃ tss, length tss = n ∧
        epoch_chain args device (d_model st) (d_loader st) tss ∧
        d_trace fin = d_trace st ++ epoch_traces args device tl a tss ∧
        d_model fin = (chain_end (d_model st) (d_loader st) tss).1
  | Aborted e fin =>
      ∃ tss ts', (length tss < n)%nat ∧
        epoch_chain args device (d_model st) (d_loader st) tss ∧
        train (chain_end (d_model st) (d_loader st) tss).1 device
          (chain_end (d_model st) (d_loader st) tss).2
          (lr args) (federate_after_n_batches args) = Raised e ts' ∧
        d_model fin = (chain_end (d_model st) (d_loader st) tss).1 ∧
        d_trace fin
        = d_trace st ++ epoch_traces args device tl a tss
          ++ EvEpochStart (a + Z.of_nat (length tss)) (epochs args)
             :: trace ts'
  | Stuck => False
  end.
Proof.
  induction n as [|n IH]; intros a st.
  - cbn. exists []. by rewrite app_nil_r.
  - rewrite seqZ_cons by lia. cbn [epoch_loop].
    replace (Z.pred (Z.of_nat (S n))) with (Z.of_nat n) by lia.
    destruct (train (d_model st) device (d_loader st) (lr args)
                (federate_after_n_batches args)) as [ts|e ts|] eqn:Ht.
    + match goal with |- context [epoch_loop _ _ _ _ ?s] =>
        specialize (IH (Z.succ a) s);
        destruct (epoch_loop args device tl (seqZ (Z.succ a) (Z.of_nat n)) s)
          as [fin|e fin|]
      end; [| |done]; cbn [d_model d_loader d_trace] in IH.
      * destruct IH as (tss & Hlen & Hch & Htr & Hm).
        exists (ts :: tss). rewrite chain_end_cons.
        split_and!; [by rewrite <- Hlen|done| |done].
        rewrite Htr. cbn [epoch_traces].
        replace (a + 1) with (Z.succ a) by lia.
        rewrite <- !app_assoc. cbn [app]. by rewrite <- ?app_assoc.
      * destruct IH as (tss & ts' & Hlen & Hch & Hr & Hm & Htr).
        exists (ts :: tss), ts'. rewrite chain_end_cons.
        split_and!; [cbn [length]; lia|done|done|done|].
        rewrite Htr. cbn [epoch_traces length].
        replace (a + 1) with (Z.succ a) by lia.
        replace (a + Z.of_nat (S (length tss)))
          with (Z.succ a + Z.of_nat (length tss)) by lia.
        rewrite <- !app_assoc. cbn [app]. by rewrite <- ?app_assoc.
    + exists [], ts. cbn [chain_end last fmap option_fmap option_map default
        fst snd length epoch_traces app d_model d_trace].
      split_and!; [lia|done|done|done|].
      by rewrite Z.add_0_r.
    + by apply train_terminates in Ht.
Qed.

(** X11: a run always ends.  Either it finishes, with as many epoch
    banners and as many evaluations as [range(1, epochs + 1)] has values;
    or it aborts in an epoch whose [train] raised, and then that epoch has
    its banner and no evaluation, and no later epoch is started. *)
Theorem run_epochs_and_evaluations args device m
    (l : FederatedDataLoader (Batch:=Batch)) (tl : TestLoader) :
  (∃ fin, run args device m l tl = Finished fin ∧
     length (List.filter is_epoch_start (d_trace fin))
       = Z.to_nat (epochs args) ∧
     length (List.filter is_test (d_trace fin)) = Z.to_nat (epochs args)) ∨
  (∃ e fin, run args device m l tl = Aborted e fin ∧
     (length (List.filter is_epoch_start (d_trace fin))
        ≤ Z.to_nat (epochs args))%nat ∧
     length (List.filter is_epoch_start (d_trace fin))
       = S (length (List.filter is_test (d_trace fin)))).
Proof.
  unfold run. rewrite seqZ_to_nat.
  pose proof (epoch_loop_outcome args device tl (Z.to_nat (epochs args)) 1
                (mkDriverState m l [])) as H.
  destruct (epoch_loop args device tl _ _) as [fin|e fin|]; [| |done];
    cbn [d_model d_loader d_trace app] in H.
  - left. destruct H as (tss & Hlen & Hch & Htr & _).
    exists fin. split; [done|]. rewrite Htr.
    destruct (epoch_traces_counts args device tl tss 1
                (epoch_chain_round_events _ _ _ _ _ Hch)) as [-> ->].
    done.
  - right. destruct H as (tss & ts' & Hlen & Hch & Hr & _ & Htr).
    exists e, fin. split; [done|]. rewrite Htr, !List.filter_app.
    cbn [List.filter is_epoch_start is_test].
    assert (Hts' : Forall round_event (trace ts')).
    { eapply train_trace_round_events. right. by exists e. }
    destruct (filter_round_events _ Hts') as [-> ->].
    rewrite !length_app.
    destruct (epoch_traces_counts args device tl tss 1
                (epoch_chain_round_events _ _ _ _ _ Hch)) as [-> ->].
    cbn [length]. lia.
Qed.

(** X12: when a run aborts, the model the driver holds is the one returned
    by the last epoch that completed (the initial model if none did): the
    aggregations of the epoch that raised are not in it.  The trace ends
    with that epoch's banner and the events of its [train]. *)
Theorem run_abort_keeps_last_epoch_model args device m
    (l : FederatedDataLoader (Batch:=Batch)) (tl : TestLoader) e fin :
  run args device m l tl = Aborted e fin →
  ∃ tss ts',
    (length tss < Z.to_nat (epochs args))%nat ∧
    epoch_chain args device m l tss ∧
    d_model fin = default m (model <$> last tss) ∧
    train (d_model fin) device (chain_end m l tss).2
      (lr args) (federate_after_n_batches args) = Raised e ts' ∧
    d_trace fin
    = epoch_traces args device tl 1 tss
      ++ EvEpochStart (1 + Z.of_nat (length tss)) (epochs args) :: trace ts' ∧
    last (d_trace fin) = Some (EvAggregate (models ts')).
Proof.
  unfold run. rewrite seqZ_to_nat. intros Hrun.
  pose proof (epoch_loop_outcome args device tl (Z.to_nat (epochs args)) 1
                (mkDriverState m l [])) as H.
  rewrite Hrun in H. cbn [d_model d_loader d_trace app] in H.
  destruct H as (tss & ts' & Hlen & Hch & Hr & Hm & Htr).
  exists tss, ts'. split_and!; try done.
  - by rewrite Hm.
  - rewrite Htr.
    destruct (train_Raised_inv _ _ _ _ _ _ _ Hr) as (k & stk & _ & Hrk).
    apply round_Raise_inv in Hrk as (_ & _ & _ & _ & _ & Ht').
    rewrite Ht'.
    rewrite (app_comm_cons (trace stk)), !app_comm_cons, !app_assoc.
    apply last_snoc.
Qed.

Lemma rounds_partition device lr nr k :
  ∀ (s1 s2 : TrainState (Batch:=Batch) (Metrics:=Metrics)),
  rounds k device lr nr s1 = Some s2 →
  partition (loader s2) = partition (loader s1).
Proof.
  induction k as [|k IH]; intros s1 s2 Hr; cbn [rounds] in Hr;
    [by simplify_eq|].
  destruct (round device lr nr s1) as [s'| |] eqn:E; try done.
  rewrite (IH _ _ Hr).
  apply round_Continue_inv in E as (_ & _ & _ & _ & -> & _). done.
Qed.

(** [train] leaves the partitions of the loader as they are. *)
Lemma train_Returned_partition m device
    (l : FederatedDataLoader (Batch:=Batch)) lr nr ts :
  train (Metrics:=Metrics) m device l lr nr = Returned ts →
  partition (loader ts) = partition l.
Proof.
  intros Ht.
  destruct (train_Returned_inv _ _ _ _ _ _ Ht) as (k & stk & Hk & Hbr & _).
  apply round_Break_inv in Hbr as (_ & -> & _).
  by rewrite (rounds_partition _ _ _ _ _ _ Hk).
Qed.

Lemma epoch_chain_calls args device tss : ∀ m
    (l : FederatedDataLoader (Batch:=Batch)) ts,
  epoch_chain args device m l tss → ts ∈ tss →
  ∃ m' l', partition l' = partition l ∧
           train m' device l' (lr args) (federate_after_n_batches args)
           = Returned ts.
Proof.
  induction tss as [|ts0 tss IH]; intros m l ts Hch Hin.
  - by apply elem_of_nil in Hin.
  - destruct Hch as [Ht Hch].
    apply elem_of_cons in Hin as [->|Hin]; [by exists m, l|].
    destruct (IH _ _ _ Hch Hin) as (m' & l' & Hp & Ht').
    exists m', l'. split; [|done].
    by rewrite Hp, (train_Returned_partition _ _ _ _ _ _ Ht).
Qed.

(** X13: every epoch of a run goes through the same rounds: the epochs
    whose [train] returned all show the same banners, the same number of
    aggregations and the same final counter, because each epoch restarts
    the loader over the same partitions. *)
Theorem epochs_have_same_rounds args device m
    (l : FederatedDataLoader (Batch:=Batch)) tss ts1 ts2 :
  epoch_chain args device m l tss →
  ts1 ∈ tss → ts2 ∈ tss →
  counter ts1 = counter ts2 ∧
  banners (trace ts1) = banners (trace ts2) ∧
  length (List.filter is_aggregate (trace ts1))
  = length (List.filter is_aggregate (trace ts2)).
Proof.
  intros Hch H1 H2.
  destruct (epoch_chain_calls _ _ _ _ _ _ Hch H1) as (m1 & l1 & Hp1 & Ht1).
  destruct (epoch_chain_calls _ _ _ _ _ _ Hch H2) as (m2 & l2 & Hp2 & Ht2).
  destruct (train_Returned_inv _ _ _ _ _ _ Ht1)
    as (k1 & _ & _ & _ & Hf1 & He1 & _ & Hc1 & Hb1 & Ha1).
  destruct (train_Returned_inv _ _ _ _ _ _ Ht2)
    as (k2 & _ & _ & _ & Hf2 & He2 & _ & Hc2 & Hb2 & Ha2).
  assert (k1 = k2) as ->.
  { eapply (first_exhaustion_unique _ l1 l2); [|done..]. by rewrite Hp1, Hp2. }
  rewrite Hc1, Hc2, Hb1, Hb2, Ha1, Ha2. done.
Qed.

End RunFacts.

Lemma run_abort_keeps_last_epoch_model_witness :
  ∃ e fin,
    run (C:=ragged_collaborators) ragged_args cpu demo_model uneven_loader tt
      = Aborted e fin ∧
    ∃ tss ts',
      (length tss < Z.to_nat (epochs ragged_args))%nat ∧
      epoch_chain (C:=ragged_collaborators) ragged_args cpu demo_model
        uneven_loader tss ∧
      d_model fin = default demo_model (model <$> last tss) ∧
      train (C:=ragged_collaborators) (d_model fin) cpu
        (chain_end demo_model uneven_loader tss).2
        (lr ragged_args) (federate_after_n_batches ragged_args)
        = Raised e ts' ∧
      d_trace fin
      = epoch_traces (C:=ragged_collaborators) ragged_args cpu tt 1 tss
        ++ EvEpochStart (1 + Z.of_nat (length tss)) (epochs ragged_args)
           :: trace ts' ∧
      last (d_trace fin) = Some (EvAggregate (models ts')).
Proof.
  destruct (run (C:=ragged_collaborators) ragged_args cpu demo_model
              uneven_loader tt) as [fin|e fin|] eqn:E.
  - vm_compute in E. discriminate.
  - exists e, fin. split; [reflexivity|].
    exact (run_abort_keeps_last_epoch_model (C:=ragged_collaborators)
             ragged_args cpu demo_model uneven_loader tt e fin E).
  - vm_compute in E. discriminate.
Defined.

(** In that run the first round of epoch 1 aggregates and the second
    raises: the model in the state at the raise is the aggregated one, the
    model the driver is left with is still the initial one. *)
Example abort_drops_round_progress :
  match run (C:=ragged_collaborators) ragged_args cpu demo_model
          uneven_loader tt,
        train (C:=ragged_collaborators) (Metrics:=nat) demo_model cpu
          uneven_loader demo_lr 2 with
  | Aborted e fin, Raised e' ts =>
      Some (e, e', bool_decide (d_model fin = demo_model),
            bool_decide (model ts = demo_model),
            length (List.filter is_aggregate (trace ts)))
  | _, _ => None
  end = Some (ShapeMismatch, ShapeMismatch, true, false, 2%nat).
Proof. vm_compute. reflexivity. Qed.

Lemma epochs_have_same_rounds_witness :
  ∃ ts1 ts2,
    epoch_chain (C:=demo_collaborators) demo_args cpu demo_model demo_loader
      [ts1; ts2] ∧
    counter ts1 = counter ts2 ∧
    banners (trace ts1) = banners (trace ts2) ∧
    length (List.filter is_aggregate (trace ts1))
    = length (List.filter is_aggregate (trace ts2)).
Proof.
  destruct (epoch_loop_finishes (C:=demo_collaborators) demo_args cpu tt 2 1
              (mkDriverState demo_model demo_loader [])
              demo_signature_preserving)
    as (fin & tss & _ & Hlen & Hch & _); [done|].
  destruct tss as [|ts1 [|ts2 [|ts3 tss]]]; try discriminate.
  cbn [d_model d_loader] in Hch.
  exists ts1, ts2. split; [exact Hch|].
  apply (epochs_have_same_rounds (C:=demo_collaborators) demo_args cpu
           demo_model demo_loader [ts1; ts2] ts1 ts2 Hch).
  - left.
  - right. left.
Defined.

(** ** The order of dispatch *)

Section DispatchOrder.
Context {Batch TestLoader Metrics : Type}.
Context {C : Collaborators Batch TestLoader Metrics}.
Implicit Types (st : TrainState (Batch:=Batch) (Metrics:=Metrics)).
Implicit Types (bs : list (WorkerId * list Batch)).

#[local] Arguments round_train : simpl never.
#[local] Arguments round : simpl never.

Lemma round_train_round_start device lr nr st :
  models (round_train device lr nr st)
  = models (foldl (train_worker device lr) (round_start nr st) (batches st)).
Proof. reflexivity. Qed.









End DispatchOrder.



(** The first round of [train] on [demo_loader]: two calls, alice then
    bob; at bob's call [models] holds alice's result and nothing else. *)
Example demo_dispatch_order :
  (λ wp, (wp.1, (models wp.2).*1))
    <$> round_dispatch_states (C:=demo_collaborators) cpu demo_lr 1
          (train_init (Metrics:=nat) demo_model demo_loader 1)
  = [("alice", []); ("bob", ["alice"])].
Proof. vm_compute. reflexivity. Qed.

(** That first round goes on: both workers have data and the aggregation
    succeeds, so the statements about the next round are about a real
    one. *)
Example demo_first_round_continues :
  match round (C:=demo_collaborators) cpu demo_lr 1
          (train_init (Metrics:=nat) demo_model demo_loader 1) with
  | Continue st' => Some (batches st')
  | _ => None
  end = Some [("alice", [1%nat]); ("bob", [])].
Proof. vm_compute. reflexivity. Qed.
